(** * ZeRO initialisation context of ColossalAI: a shallow embedding

    Sources embedded here:
    - [colossalai/zero/sharded_param/sharded_tensor.py]  (class [ShardedTensor])
    - [colossalai/zero/init_ctx/init_context.py]
      ([InsertPostInitMethodToModuleSubClasses], [ZeroContextConfig],
       [ZeroInitContext], [ZeroContextMgr])

    Python objects that are mutated through references (parameters, classes,
    the current context) live in explicit stores; code that may raise returns
    a [result]; calls into the collective-communication layer are recorded in
    a trace of events. *)

From Stdlib Require Import ZArith List String Bool Lia.
From stdpp Require Import base option list gmap strings.

Local Open Scope Z_scope.

(** ** Exceptions and fallible computations *)

Inductive exn : Type :=
  | AssertionError (msg : string)
  | ValueError (msg : string)
  | AttributeError (attr : string)
  | TypeError (msg : string)
  | IndexError
  | RuntimeError (msg : string)
  | RecursionError
  | UserError (tag : nat).

Inductive result (A : Type) : Type :=
  | Ok (a : A)
  | Raise (e : exn).
Arguments Ok {A} a.
Arguments Raise {A} e.

Definition rbind {A B} (r : result A) (k : A -> result B) : result B :=
  match r with
  | Ok a => k a
  | Raise e => Raise e
  end.

Notation "'let!' x ':=' r 'in' k" := (rbind r (fun x => k))
  (at level 10, x pattern, r at level 100, k at level 200).

(** Python's [assert cond, msg]. *)
Definition py_assert (cond : bool) (msg : string) : result unit :=
  if cond then Ok tt else Raise (AssertionError msg).

(** ** The part of torch the sources rely on *)

Module torch.

Inductive dtype : Type :=
  | float16 | bfloat16 | float32 | float64
  | uint8 | int8 | int16 | int32 | int64 | bool_.

Definition is_floating_point_dtype (d : dtype) : bool :=
  match d with
  | float16 | bfloat16 | float32 | float64 => true
  | _ => false
  end.

(** [torch.device]: a device type such as ['cpu'] or ['cuda'] and an
    optional ordinal. *)
Record device : Type := { type : string; index : option Z }.

(** A tensor as far as this code looks at it: its shape, element type and
    placement.  Element values are never inspected by the code embedded
    below and are not part of the model. *)
Record Tensor : Type := {
  shape : list Z;
  dtype_of : dtype;
  device_of : device;
}.

(** [Tensor.numel()]: the product of the dimensions. *)
Definition numel (t : Tensor) : Z := fold_right Z.mul 1 (shape t).

Definition is_floating_point (t : Tensor) : bool :=
  is_floating_point_dtype (dtype_of t).

(** [Tensor.half()] *)
Definition half (t : Tensor) : Tensor :=
  {| shape := shape t; dtype_of := float16; device_of := device_of t |}.

(** [Tensor.to(device)] *)
Definition to (t : Tensor) (d : device) : Tensor :=
  {| shape := shape t; dtype_of := dtype_of t; device_of := d |}.

End torch.

(** ** [sharded_tensor.py] *)

(** [TensorState] of [tensorful_state.py], the lifecycle tag of a payload. *)
Inductive TensorState : Type :=
  | FREE | HOLD | HOLD_AFTER_FWD | HOLD_AFTER_BWD | COMPUTE.

(** The fields of a [ShardedTensor] object: the two inherited from
    [StatefulTensor] ([_state], [_payload]) and the four its own
    constructor sets. *)
Record ShardedTensor : Type := {
  _state : TensorState;
  _payload : torch.Tensor;
  _origin_shape : list Z;
  _origin_numel : Z;
  _origin_dtype : torch.dtype;
  _is_sharded : bool;
}.

Module ShardedTensorM.

(** [ShardedTensor.__init__(self, tensor, state=TensorState.HOLD)] *)
Definition __init__ (tensor : torch.Tensor) (state : TensorState) : ShardedTensor :=
  {| _state := state;
     _payload := tensor;
     _origin_shape := torch.shape tensor;
     _origin_numel := torch.numel tensor;
     _origin_dtype := torch.dtype_of tensor;
     _is_sharded := false |}.

Definition origin_numel (self : ShardedTensor) : Z := _origin_numel self.
Definition origin_shape (self : ShardedTensor) : list Z := _origin_shape self.
Definition is_sharded (self : ShardedTensor) : bool := _is_sharded self.

(** The [is_sharded] setter. *)
Definition set_is_sharded (self : ShardedTensor) (flag : bool) : ShardedTensor :=
  {| _state := _state self;
     _payload := _payload self;
     _origin_shape := _origin_shape self;
     _origin_numel := _origin_numel self;
     _origin_dtype := _origin_dtype self;
     _is_sharded := flag |}.

(** Modelled from the spec: the base class [StatefulTensor]
    (tensorful_state.py) is not among the sources.  The spec describes the
    entity as a payload with a lifecycle state tag; its mutators replace
    the payload or move the state tag, and know nothing of the fields
    [ShardedTensor] adds. *)
Definition reset_payload (self : ShardedTensor) (tensor : torch.Tensor) : ShardedTensor :=
  {| _state := _state self;
     _payload := tensor;
     _origin_shape := _origin_shape self;
     _origin_numel := _origin_numel self;
     _origin_dtype := _origin_dtype self;
     _is_sharded := _is_sharded self |}.

(** Modelled from the spec: [StatefulTensor.trans_state], see [reset_payload]. *)
Definition trans_state (self : ShardedTensor) (state : TensorState) : ShardedTensor :=
  {| _state := state;
     _payload := _payload self;
     _origin_shape := _origin_shape self;
     _origin_numel := _origin_numel self;
     _origin_dtype := _origin_dtype self;
     _is_sharded := _is_sharded self |}.

(** The operations a client can perform on an entity once it exists. *)
Inductive op : Type :=
  | SetIsSharded (flag : bool)
  | ResetPayload (tensor : torch.Tensor)
  | TransState (state : TensorState).

Definition apply_op (self : ShardedTensor) (o : op) : ShardedTensor :=
  match o with
  | SetIsSharded flag => set_is_sharded self flag
  | ResetPayload tensor => reset_payload self tensor
  | TransState state => trans_state self state
  end.

Definition apply_ops (self : ShardedTensor) (ops : list op) : ShardedTensor :=
  fold_left apply_op ops self.

End ShardedTensorM.

(** ** [init_context.py]: [ZeroContextConfig] *)

Record ZeroContextConfig : Type := {
  target_device : torch.device;
  is_replicated : bool;
  shard_param : bool;
}.

Module ZeroContextConfigM.

(** [ZeroContextConfig.__init__(self, target_device, replicated=True, shard_param=False)] *)
Definition __init__ (target_device : torch.device) (replicated shard_param : bool)
  : result ZeroContextConfig :=
  let! _ := (if shard_param
             then py_assert replicated "Non-replicated parameters can't be sharded."
             else Ok tt) in
  let! _ := (if replicated && negb shard_param
             then py_assert (String.eqb (torch.type target_device) "cuda")
                    "Replicated no-shard paramters should locate in cuda."
             else Ok tt) in
  Ok {| target_device := target_device;
        is_replicated := replicated;
        shard_param := shard_param |}.

End ZeroContextConfigM.


(** ** Parameters and their wrap metadata *)

(** Modelled from the spec: the class [ShardedParamV2]
    (colossalai/zero/sharded_param) is not among the sources.  It is the
    wrap metadata a parameter carries as [colo_attr]: it owns one
    [ShardedTensor] entity built from the parameter's payload, and its
    [param_is_sharded] property reports that entity's [is_sharded] flag. *)
Record ShardedParamV2 : Type := {
  sharded_data_tensor : ShardedTensor;
}.

Module ShardedParamV2M.

(** [ShardedParamV2(param, rm_torch_payload=False)], given [param.data]. *)
Definition __init__ (param_data : torch.Tensor) : ShardedParamV2 :=
  {| sharded_data_tensor := ShardedTensorM.__init__ param_data HOLD |}.

Definition param_is_sharded (self : ShardedParamV2) : bool :=
  ShardedTensorM.is_sharded (sharded_data_tensor self).

End ShardedParamV2M.

(** An [nn.Parameter] object: its payload and gradient, and the two
    attributes the context attaches to it.  An attribute that has not been
    set is [None] ([hasattr] is [false]). *)
Record nn_Parameter : Type := {
  data : torch.Tensor;
  grad : option torch.Tensor;
  param_is_replicated : option bool;
  colo_attr : option ShardedParamV2;
}.

#[export] Instance nn_Parameter_inhabited : Inhabited nn_Parameter :=
  populate {| data := {| torch.shape := []; torch.dtype_of := torch.float32;
                         torch.device_of := {| torch.type := "cpu"; torch.index := None |} |};
              grad := None;
              param_is_replicated := None;
              colo_attr := None |}.

(** What [calc_fanin_fanout] can be handed: a plain tensor, or a parameter
    ([isinstance(tensor, nn.Parameter)]). *)
Inductive tensor_arg : Type :=
  | PlainTensor (t : torch.Tensor)
  | Param (p : nn_Parameter).

Definition hasattr_colo_attr (p : nn_Parameter) : bool :=
  match colo_attr p with Some _ => true | None => false end.

(** [seq[i]] for a non-negative index. *)
Definition py_index {A} (l : list A) (i : nat) : result A :=
  match l !! i with
  | Some x => Ok x
  | None => Raise IndexError
  end.

(** [ZeroInitContext.calc_fanin_fanout(tensor)] *)
Definition calc_fanin_fanout (tensor : tensor_arg) : result (Z * Z) :=
  match tensor with
  | PlainTensor _ =>
      Raise (AssertionError "Sharded tensor initilization is only allowed for paramters")
  | Param p =>
      let tensor_shape :=
        match colo_attr p with
        | None => torch.shape (data p)
        | Some attr =>
            if negb (ShardedParamV2M.param_is_sharded attr)
            then torch.shape (data p)
            else ShardedTensorM.origin_shape (sharded_data_tensor attr)
        end in
      let dimensions := length tensor_shape in
      if (dimensions <? 2)%nat
      then Raise (ValueError
             "Fan in and fan out can not be computed for tensor with fewer than 2 dimensions")
      else
        let! num_input_fmaps := py_index tensor_shape 1 in
        let! num_output_fmaps := py_index tensor_shape 0 in
        let receptive_field_size :=
          if (2 <? dimensions)%nat
          then fold_left (fun acc s => acc * s) (drop 2 tensor_shape) 1
          else 1 in
        let fan_in := num_input_fmaps * receptive_field_size in
        let fan_out := num_output_fmaps * receptive_field_size in
        Ok (fan_in, fan_out)
  end.

(** The fan-in/fan-out of a shape as the specification words it:
    [fan_in = shape[1] * prod(shape[2:])], [fan_out = shape[0] * prod(shape[2:])],
    and a dimension error below two dimensions. *)
Definition product (dims : list Z) : Z := fold_right Z.mul 1 dims.

Definition fan_in_fan_out_of_shape (shape : list Z) : result (Z * Z) :=
  match shape with
  | d0 :: d1 :: rest => Ok (d1 * product rest, d0 * product rest)
  | _ => Raise (ValueError
           "Fan in and fan out can not be computed for tensor with fewer than 2 dimensions")
  end.


(** ** Mutable state with exceptions

    A method is a function from the state before the call to the state after
    it and either a value or the exception it raised; the mutations made
    before a [raise] stay in the state. *)

Definition M (S A : Type) : Type := S -> S * result A.

Definition ret {S A} (a : A) : M S A := fun s => (s, Ok a).

Definition raise {S A} (e : exn) : M S A := fun s => (s, Raise e).

Definition bind {S A B} (m : M S A) (k : A -> M S B) : M S B :=
  fun s =>
    match m s with
    | (s', Ok a) => k a s'
    | (s', Raise e) => (s', Raise e)
    end.

Definition gets {S A} (f : S -> A) : M S A := fun s => (s, Ok (f s)).

Definition modify {S} (f : S -> S) : M S unit := fun s => (f s, Ok tt).

Definition lift_result {S A} (r : result A) : M S A := fun s => (s, r).

Notation "'let*' x ':=' m 'in' k" := (bind m (fun x => k))
  (at level 10, x pattern, m at level 100, k at level 200).

(** [for x in l: body(x)] *)
Fixpoint for_each {S A} (l : list A) (body : A -> M S unit) : M S unit :=
  match l with
  | [] => ret tt
  | x :: l' => let* _ := body x in for_each l' body
  end.

(** ** The process around the context *)

(** The state of the random-number generators, as the byte tensors
    [torch.get_rng_state()] and [torch.cuda.get_rng_state()] return. *)
Definition rng_state : Type := list Byte.byte.

Definition fan_routine : Type := tensor_arg -> result (Z * Z).

(** Process-wide state of torch that the context saves, replaces and
    restores. *)
Record TorchGlobals : Type := {
  cpu_rng : rng_state;
  cuda_rng : rng_state;
  _calculate_fan_in_and_fan_out : fan_routine;
}.

(** What the distributed runtime answers when the context asks:
    [dist.get_rank()], [gpc.get_ranks_in_group(ParallelMode.DATA)],
    [torch.cuda.current_device()], the host and accelerator generator states
    [torch.manual_seed(seed)] installs (or the error it raises for a seed it
    does not accept), and the interpreter's recursion limit. *)
Record Runtime : Type := {
  get_rank : Z;
  get_ranks_in_group : list Z;
  cuda_current_device : Z;
  manual_seed : Z -> result (rng_state * rng_state);
  getrecursionlimit : nat;
}.

(** Calls into collaborators that leave the process. *)
Inductive event : Type :=
  | Broadcast (param : nat) (tensor : torch.Tensor) (src : Z) (group : nat)
  | RemoveTorchPayload (param : nat).

(** The fields of a [ZeroInitContext] object.  [del self.param_list] leaves
    the attribute absent; the three snapshot attributes are absent until
    [_pre_context_exec] sets them.  [shard_strategy] is what
    [shard_strategy.shard([t], group)] does to the one entity it is handed.
    [model_numel_tensor] is a one-element [torch.long] tensor. *)
Record ZeroInitContext : Type := {
  shard_strategy : ShardedTensor -> ShardedTensor;
  param_list : option (list nat);
  model_numel_tensor : Z;
  seed : Z;
  dp_process_group : nat;
  config : ZeroContextConfig;
  nn_fanin_fanout : option fan_routine;
  cpu_rng_state : option rng_state;
  cuda_rng_state : option rng_state;
}.

(** An [nn.Module] instance as the hook sees it: the parameters and buffers
    it owns directly ([recurse=False]), as references into the stores. *)
Record nn_Module : Type := {
  parameters : list nat;
  buffers : list nat;
}.

(** A constructor found on a class: one a class body defined, the one of
    [object], or [preprocess_after(f)]. *)
Inductive init_fn : Type :=
  | object_init
  | defined_init (owner : nat)
  | wrapper (f : init_fn).

Inductive init_subclass_fn : Type :=
  | object_init_subclass
  | patched_init_subclass.

(** A class object: its direct bases, its method resolution order (itself
    first, as [cls.__mro__] holds it), and the two entries of its own
    [__dict__] that the interceptor reads and writes. *)
Record PyClass : Type := {
  bases : list nat;
  mro : list nat;
  dict_init : option init_fn;
  dict_old_init : option init_fn;
}.

(** Everything the embedded methods read or write.  Class [0] of [classes]
    is [torch.nn.Module]; a class is referred to by its position. *)
Record State : Type := {
  classes : list PyClass;
  Module_init_subclass : init_subclass_fn;
  Module_old_init_subclass : option init_subclass_fn;
  self : ZeroInitContext;
  params : gmap nat nn_Parameter;
  module_buffers : gmap nat torch.Tensor;
  globals : TorchGlobals;
  trace : list event;
}.

#[export] Instance Tensor_inhabited : Inhabited torch.Tensor :=
  populate {| torch.shape := []; torch.dtype_of := torch.float32;
              torch.device_of := {| torch.type := "cpu"; torch.index := None |} |}.

(** Field updates. *)
Definition with_classes (v : list PyClass) (s : State) : State :=
  {| classes := v; Module_init_subclass := Module_init_subclass s;
     Module_old_init_subclass := Module_old_init_subclass s; self := self s;
     params := params s; module_buffers := module_buffers s;
     globals := globals s; trace := trace s |}.

Definition with_init_subclass (v : init_subclass_fn) (s : State) : State :=
  {| classes := classes s; Module_init_subclass := v;
     Module_old_init_subclass := Module_old_init_subclass s; self := self s;
     params := params s; module_buffers := module_buffers s;
     globals := globals s; trace := trace s |}.

Definition with_old_init_subclass (v : option init_subclass_fn) (s : State) : State :=
  {| classes := classes s; Module_init_subclass := Module_init_subclass s;
     Module_old_init_subclass := v; self := self s;
     params := params s; module_buffers := module_buffers s;
     globals := globals s; trace := trace s |}.

Definition with_self (v : ZeroInitContext) (s : State) : State :=
  {| classes := classes s; Module_init_subclass := Module_init_subclass s;
     Module_old_init_subclass := Module_old_init_subclass s; self := v;
     params := params s; module_buffers := module_buffers s;
     globals := globals s; trace := trace s |}.

Definition with_params (v : gmap nat nn_Parameter) (s : State) : State :=
  {| classes := classes s; Module_init_subclass := Module_init_subclass s;
     Module_old_init_subclass := Module_old_init_subclass s; self := self s;
     params := v; module_buffers := module_buffers s;
     globals := globals s; trace := trace s |}.

Definition with_module_buffers (v : gmap nat torch.Tensor) (s : State) : State :=
  {| classes := classes s; Module_init_subclass := Module_init_subclass s;
     Module_old_init_subclass := Module_old_init_subclass s; self := self s;
     params := params s; module_buffers := v;
     globals := globals s; trace := trace s |}.

Definition with_globals (v : TorchGlobals) (s : State) : State :=
  {| classes := classes s; Module_init_subclass := Module_init_subclass s;
     Module_old_init_subclass := Module_old_init_subclass s; self := self s;
     params := params s; module_buffers := module_buffers s;
     globals := v; trace := trace s |}.

Definition with_trace (v : list event) (s : State) : State :=
  {| classes := classes s; Module_init_subclass := Module_init_subclass s;
     Module_old_init_subclass := Module_old_init_subclass s; self := self s;
     params := params s; module_buffers := module_buffers s;
     globals := globals s; trace := v |}.

Definition with_param_list (v : option (list nat)) (c : ZeroInitContext) : ZeroInitContext :=
  {| shard_strategy := shard_strategy c; param_list := v;
     model_numel_tensor := model_numel_tensor c; seed := seed c;
     dp_process_group := dp_process_group c; config := config c;
     nn_fanin_fanout := nn_fanin_fanout c; cpu_rng_state := cpu_rng_state c;
     cuda_rng_state := cuda_rng_state c |}.

Definition with_model_numel_tensor (v : Z) (c : ZeroInitContext) : ZeroInitContext :=
  {| shard_strategy := shard_strategy c; param_list := param_list c;
     model_numel_tensor := v; seed := seed c;
     dp_process_group := dp_process_group c; config := config c;
     nn_fanin_fanout := nn_fanin_fanout c; cpu_rng_state := cpu_rng_state c;
     cuda_rng_state := cuda_rng_state c |}.

Definition with_config (v : ZeroContextConfig) (c : ZeroInitContext) : ZeroInitContext :=
  {| shard_strategy := shard_strategy c; param_list := param_list c;
     model_numel_tensor := model_numel_tensor c; seed := seed c;
     dp_process_group := dp_process_group c; config := v;
     nn_fanin_fanout := nn_fanin_fanout c; cpu_rng_state := cpu_rng_state c;
     cuda_rng_state := cuda_rng_state c |}.

Definition with_snapshots (fan : option fan_routine) (cpu cuda : option rng_state)
    (c : ZeroInitContext) : ZeroInitContext :=
  {| shard_strategy := shard_strategy c; param_list := param_list c;
     model_numel_tensor := model_numel_tensor c; seed := seed c;
     dp_process_group := dp_process_group c; config := config c;
     nn_fanin_fanout := fan; cpu_rng_state := cpu; cuda_rng_state := cuda |}.

Definition with_data (v : torch.Tensor) (p : nn_Parameter) : nn_Parameter :=
  {| data := v; grad := grad p; param_is_replicated := param_is_replicated p;
     colo_attr := colo_attr p |}.

Definition with_grad (v : option torch.Tensor) (p : nn_Parameter) : nn_Parameter :=
  {| data := data p; grad := v; param_is_replicated := param_is_replicated p;
     colo_attr := colo_attr p |}.

Definition with_param_is_replicated (v : bool) (p : nn_Parameter) : nn_Parameter :=
  {| data := data p; grad := grad p; param_is_replicated := Some v;
     colo_attr := colo_attr p |}.

Definition with_colo_attr (v : ShardedParamV2) (p : nn_Parameter) : nn_Parameter :=
  {| data := data p; grad := grad p; param_is_replicated := param_is_replicated p;
     colo_attr := Some v |}.

(** ** [init_context.py]: [ZeroInitContext] *)

(** In-place addition on a [torch.long] tensor: two's complement, 64 bits. *)
Definition wrap_int64 (z : Z) : Z := (z + 2 ^ 63) mod 2 ^ 64 - 2 ^ 63.

(** [half_fn] of [_post_init_method]. *)
Definition half_fn (t : torch.Tensor) : torch.Tensor :=
  if torch.is_floating_point t then torch.half t else t.

(** Modelled from the spec: [cast_tensor_to_fp16]
    (colossalai/zero/sharded_model/_utils.py) is not among the sources; the
    spec has buffers cast to half precision, floating tensors being the ones
    a precision cast changes. *)
Definition cast_tensor_to_fp16 (t : torch.Tensor) : torch.Tensor :=
  if torch.is_floating_point t then torch.half t else t.

(** The body of the loop over [module.parameters(recurse=False)]. *)
Definition adapt_param (param : nat) : M State unit :=
  let* p := gets (fun s => params s !!! param) in
  (* avoid adapting a param to ShardedParam twice *)
  if hasattr_colo_attr p then ret tt
  else
    let* _ := modify (fun s =>
      with_self (with_model_numel_tensor
                   (wrap_int64 (model_numel_tensor (self s) + torch.numel (data p)))
                   (self s)) s) in
    let* cfg := gets (fun s => config (self s)) in
    (* mark whether the param is replicated *)
    let p := with_param_is_replicated (is_replicated cfg) p in
    (* convert parameters to half *)
    let p := with_data (half_fn (data p)) p in
    let p := match grad p with
             | Some g => with_grad (Some (half_fn g)) p
             | None => p
             end in
    (* move torch parameters to the target device *)
    let p := with_data (torch.to (data p) (target_device cfg)) p in
    let p := match grad p with
             | Some g => with_grad (Some (torch.to g (target_device cfg))) p
             | None => p
             end in
    let attr := ShardedParamV2M.__init__ (data p) in
    let p := with_colo_attr attr p in
    let* strategy := gets (fun s => shard_strategy (self s)) in
    let p := if shard_param cfg
             then
               let t := strategy (sharded_data_tensor attr) in
               (* set param.data to payload *)
               with_data (_payload t) (with_colo_attr {| sharded_data_tensor := t |} p)
             else p in
    let* _ := modify (fun s => with_params (<[param := p]> (params s)) s) in
    let* l := gets (fun s => param_list (self s)) in
    match l with
    | Some l => modify (fun s => with_self (with_param_list (Some (l ++ [param])) (self s)) s)
    | None => raise (AttributeError "param_list")
    end.

(** The body of the loop over [module.buffers(recurse=False)]. *)
Definition cast_buffer (rt : Runtime) (buffer : nat) : M State unit :=
  modify (fun s =>
    let b := module_buffers s !!! buffer in
    let b := torch.to b {| torch.type := "cuda"; torch.index := Some (cuda_current_device rt) |} in
    let b := cast_tensor_to_fp16 b in
    with_module_buffers (<[buffer := b]> (module_buffers s)) s).

(** [ZeroInitContext._post_init_method(self, module)] *)
Definition _post_init_method (rt : Runtime) (module : nn_Module) : M State unit :=
  let* _ := for_each (parameters module) adapt_param in
  for_each (buffers module) (cast_buffer rt).

Definition log_event (e : event) : M State unit :=
  modify (fun s => with_trace (trace s ++ [e]) s).

(** Reading an attribute of [self] that may be absent. *)
Definition getattr_self {A} (f : ZeroInitContext -> option A) (name : string) : M State A :=
  let* v := gets (fun s => f (self s)) in
  match v with
  | Some a => ret a
  | None => raise (AttributeError name)
  end.

(** [ZeroInitContext._pre_context_exec(self)] *)
Definition _pre_context_exec (rt : Runtime) : M State unit :=
  (* substitute fan-in and fan-out calculation *)
  let* _ := modify (fun s =>
    with_self (with_snapshots (Some (_calculate_fan_in_and_fan_out (globals s)))
                 (cpu_rng_state (self s)) (cuda_rng_state (self s)) (self s)) s) in
  let* _ := modify (fun s =>
    with_globals {| cpu_rng := cpu_rng (globals s); cuda_rng := cuda_rng (globals s);
                    _calculate_fan_in_and_fan_out := calc_fanin_fanout |} s) in
  (* reserve rng states *)
  let* _ := modify (fun s =>
    with_self (with_snapshots (nn_fanin_fanout (self s))
                 (Some (cpu_rng (globals s))) (cuda_rng_state (self s)) (self s)) s) in
  let* _ := modify (fun s =>
    with_self (with_snapshots (nn_fanin_fanout (self s))
                 (cpu_rng_state (self s)) (Some (cuda_rng (globals s))) (self s)) s) in
  (* set new seed for initialization *)
  let* seed := gets (fun s => seed (self s)) in
  let offset := seed + 1 in
  let* seeded := lift_result (manual_seed rt (seed + offset * get_rank rt)) in
  modify (fun s =>
    with_globals {| cpu_rng := fst seeded; cuda_rng := snd seeded;
                    _calculate_fan_in_and_fan_out :=
                      _calculate_fan_in_and_fan_out (globals s) |} s).

(** The body of the loop of [_post_context_exec]. *)
Definition broadcast_and_release (src_rank : Z) (param : nat) : M State unit :=
  let* p := gets (fun s => params s !!! param) in
  match colo_attr p with
  | None => raise (AssertionError "")
  | Some attr =>
      let* replicated_no_shard :=
        if negb (ShardedParamV2M.param_is_sharded attr)
        then match param_is_replicated p with
             | Some b => ret b
             | None => raise (AttributeError "is_replicated")
             end
        else ret false in
      let* group := gets (fun s => dp_process_group (self s)) in
      let* _ := if replicated_no_shard
                then log_event (Broadcast param (data p) src_rank group)
                else ret tt in
      log_event (RemoveTorchPayload param)
  end.

(** [ZeroInitContext._post_context_exec(self)] *)
Definition _post_context_exec (rt : Runtime) : M State unit :=
  (* broadcast replicated no-shard parameters *)
  let* src_rank := lift_result (py_index (get_ranks_in_group rt) 0) in
  let* l := getattr_self param_list "param_list" in
  let* _ := for_each l (broadcast_and_release src_rank) in
  let* _ := modify (fun s => with_self (with_param_list None (self s)) s) in
  let* fan := getattr_self nn_fanin_fanout "nn_fanin_fanout" in
  let* _ := modify (fun s =>
    with_globals {| cpu_rng := cpu_rng (globals s); cuda_rng := cuda_rng (globals s);
                    _calculate_fan_in_and_fan_out := fan |} s) in
  let* cpu := getattr_self cpu_rng_state "cpu_rng_state" in
  let* _ := modify (fun s =>
    with_globals {| cpu_rng := cpu; cuda_rng := cuda_rng (globals s);
                    _calculate_fan_in_and_fan_out :=
                      _calculate_fan_in_and_fan_out (globals s) |} s) in
  let* cuda := getattr_self cuda_rng_state "cuda_rng_state" in
  modify (fun s =>
    with_globals {| cpu_rng := cpu_rng (globals s); cuda_rng := cuda;
                    _calculate_fan_in_and_fan_out :=
                      _calculate_fan_in_and_fan_out (globals s) |} s).

(** ** [init_context.py]: [InsertPostInitMethodToModuleSubClasses] *)

(** [cls.__subclasses__()]: the classes that name [cls] among their direct
    bases, in the order they were declared. *)
Definition __subclasses__ (s : State) (cls : nat) : list nat :=
  List.filter (fun c => match classes s !! c with
                        | Some k => existsb (Nat.eqb cls) (bases k)
                        | None => false
                        end)
              (seq 0 (length (classes s))).

(** Attribute lookup on a class: the first class of the resolution order
    whose own [__dict__] has the entry. *)
Fixpoint first_in_mro {A} (cs : list PyClass) (entry : PyClass -> option A)
    (order : list nat) : option A :=
  match order with
  | [] => None
  | c :: order' =>
      match cs !! c with
      | Some k =>
          match entry k with
          | Some v => Some v
          | None => first_in_mro cs entry order'
          end
      | None => first_in_mro cs entry order'
      end
  end.

Definition class_mro (s : State) (cls : nat) : list nat :=
  match classes s !! cls with
  | Some k => mro k
  | None => []
  end.

(** [cls.__init__]: every resolution order ends in [object]. *)
Definition getattr_init (s : State) (cls : nat) : init_fn :=
  match first_in_mro (classes s) dict_init (class_mro s cls) with
  | Some f => f
  | None => object_init
  end.

(** [cls._old_init] *)
Definition getattr_old_init (s : State) (cls : nat) : result init_fn :=
  match first_in_mro (classes s) dict_old_init (class_mro s cls) with
  | Some f => Ok f
  | None => Raise (AttributeError "_old_init")
  end.

Definition setattr_init (cls : nat) (f : init_fn) : M State unit :=
  modify (fun s =>
    with_classes (alter (fun k => {| bases := bases k; mro := mro k;
                                     dict_init := Some f;
                                     dict_old_init := dict_old_init k |})
                        cls (classes s)) s).

Definition setattr_old_init (cls : nat) (f : init_fn) : M State unit :=
  modify (fun s =>
    with_classes (alter (fun k => {| bases := bases k; mro := mro k;
                                     dict_init := dict_init k;
                                     dict_old_init := Some f |})
                        cls (classes s)) s).

(** [preprocess_after(f)]: the function that runs [f] and then
    [self._post_init_method(module)]. *)
Definition preprocess_after (f : init_fn) : init_fn := wrapper f.

(** Whether calling the constructor runs the hook. *)
Definition runs_post_init (f : init_fn) : bool :=
  match f with
  | wrapper _ => true
  | _ => false
  end.

Definition _enable_class (cls : nat) : M State unit :=
  let* f := gets (fun s => getattr_init s cls) in
  let* _ := setattr_old_init cls f in
  let* f := gets (fun s => getattr_init s cls) in
  setattr_init cls (preprocess_after f).

(* The function is called during init subclass. *)
Definition _init_subclass (cls : nat) : M State unit :=
  let* f := gets (fun s => getattr_init s cls) in
  setattr_init cls (preprocess_after f).

Definition _disable_class (cls : nat) : M State unit :=
  let* f := (fun s => lift_result (getattr_old_init s cls) s) in
  setattr_init cls f.

(** [_substitute_init_recursively(cls, func)]; [depth] is the number of
    nested calls the interpreter still allows. *)
Fixpoint _substitute_init_recursively (depth : nat) (cls : nat)
    (func : nat -> M State unit) : M State unit :=
  match depth with
  | O => raise RecursionError
  | S depth' =>
      let* subs := gets (fun s => __subclasses__ s cls) in
      for_each subs (fun subcls =>
        let* _ := _substitute_init_recursively depth' subcls func in
        func subcls)
  end.

(** [torch.nn.modules.module.Module] *)
Definition nn_Module_class : nat := 0%nat.

(** [InsertPostInitMethodToModuleSubClasses.__enter__(self)] *)
Definition __enter__ (rt : Runtime) : M State unit :=
  (* Replace .__init__() for all existing subclasses of torch.nn.Module *)
  let* _ := _substitute_init_recursively (getrecursionlimit rt) nn_Module_class _enable_class in
  (* holding on to the current __init__subclass__ for exit *)
  let* _ := modify (fun s => with_old_init_subclass (Some (Module_init_subclass s)) s) in
  (* Replace .__init__() for future subclasses of torch.nn.Module *)
  let* _ := modify (with_init_subclass patched_init_subclass) in
  _pre_context_exec rt.

(** [InsertPostInitMethodToModuleSubClasses.__exit__(self, exc_type, exc_value, traceback)];
    the value returned says whether the exception is swallowed. *)
Definition __exit__ (rt : Runtime) (exc : option exn) : M State bool :=
  let* _ := _substitute_init_recursively (getrecursionlimit rt) nn_Module_class _disable_class in
  let* old := gets Module_old_init_subclass in
  let* _ := match old with
            | Some f => modify (with_init_subclass f)
            | None => raise (AttributeError "_old_init_subclass")
            end in
  let* _ := _post_context_exec rt in
  (* Now that we cleaned up the metaclass injection, raise the exception. *)
  ret false.

(** The [with] statement: [__exit__] runs once [__enter__] has returned,
    however the body ends. *)
Definition py_with {S} (enter : M S unit) (exit : option exn -> M S bool) (body : M S unit)
    : M S unit :=
  fun s =>
    match enter s with
    | (s1, Raise e) => (s1, Raise e)
    | (s1, Ok _) =>
        match body s1 with
        | (s2, Ok _) =>
            match exit None s2 with
            | (s3, Ok _) => (s3, Ok tt)
            | (s3, Raise e') => (s3, Raise e')
            end
        | (s2, Raise e) =>
            match exit (Some e) s2 with
            | (s3, Ok true) => (s3, Ok tt)
            | (s3, Ok false) => (s3, Raise e)
            | (s3, Raise e') => (s3, Raise e')
            end
        end
    end.

(** [with ZeroInitContext(...): body] *)
Definition zero_init_scope (rt : Runtime) (body : M State unit) : M State unit :=
  py_with (__enter__ rt) (__exit__ rt) body.

(** A [class] statement for a subclass of [nn.Module]: the class object is
    created, then [__init_subclass__] found on its bases runs on it.
    [own_init] says whether the class body defines [__init__]; [mro_tail] is
    the resolution order after the class itself. *)
Definition declare_class (bases_ mro_tail : list nat) (own_init : bool) : M State nat :=
  let* cls := gets (fun s => length (classes s)) in
  let* _ := modify (fun s =>
    with_classes (classes s ++ [{| bases := bases_; mro := cls :: mro_tail;
                                   dict_init := if own_init then Some (defined_init cls)
                                                else None;
                                   dict_old_init := None |}]) s) in
  let* hook := gets Module_init_subclass in
  let* _ := match hook with
            | patched_init_subclass => _init_subclass cls
            | object_init_subclass => ret tt
            end in
  ret cls.

(** ** [init_context.py]: [ZeroContextMgr] *)

(** The singleton's one slot.  The slot refers to the context object; the
    model keeps the object it refers to in the slot. *)
Record ZeroContextMgr : Type := {
  current_context : option ZeroInitContext;
}.

(** The keyword arguments a [ZeroContextConfig] is built from. *)
Record config_kwargs : Type := {
  kw_target_device : option torch.device;
  kw_replicated : option bool;
  kw_shard_param : option bool;
}.

Definition ZeroContextConfig_of_kwargs (kwargs : config_kwargs) : result ZeroContextConfig :=
  match kw_target_device kwargs with
  | None => Raise (TypeError "__init__() missing 1 required positional argument: 'target_device'")
  | Some d =>
      ZeroContextConfigM.__init__ d
        (default true (kw_replicated kwargs))
        (default false (kw_shard_param kwargs))
  end.

(** [ZeroContextMgr.hijack_context_config(self, **kwargs)] under
    [contextlib.contextmanager], around [body]: the generator runs to its
    [yield], the body runs, and the generator is resumed - or, if the body
    raised, the exception is thrown into it at the [yield]. *)
Definition hijack_context_config (kwargs : config_kwargs) (body : M ZeroContextMgr unit)
    : M ZeroContextMgr unit :=
  fun mgr =>
    match current_context mgr with
    | None => body mgr
    | Some ctx =>
        let old_config := config ctx in
        match ZeroContextConfig_of_kwargs kwargs with
        | Raise e => (mgr, Raise e)
        | Ok new_config =>
            match body {| current_context := Some (with_config new_config ctx) |} with
            | (mgr', Raise e) => (mgr', Raise e)
            | (mgr', Ok _) =>
                match current_context mgr' with
                | Some ctx' =>
                    ({| current_context := Some (with_config old_config ctx') |}, Ok tt)
                | None => (mgr', Raise (AttributeError "config"))
                end
            end
        end
    end.

(** [no_shard_zero_context(is_replicated=True)] *)
Definition no_shard_zero_context (rt : Runtime) (is_replicated_ : bool)
    (body : M ZeroContextMgr unit) : M ZeroContextMgr unit :=
  hijack_context_config
    {| kw_target_device :=
         Some {| torch.type := "cuda"; torch.index := Some (cuda_current_device rt) |};
       kw_replicated := Some is_replicated_;
       kw_shard_param := Some false |}
    body.

(** [no_shard_zero_decrator(is_replicated=True)(init_func)], called: the
    wrapped function runs inside the no-shard scope and its value is
    dropped ([_no_shard] has no [return]). *)
Definition no_shard_zero_decrator {A} (rt : Runtime) (is_replicated_ : bool)
    (init_func : M ZeroContextMgr A) : M ZeroContextMgr unit :=
  no_shard_zero_context rt is_replicated_ (let* _ := init_func in ret tt).

Module ZeroInitContextM.

(** [ZeroInitContext.__init__(self, target_device, shard_strategy, seed,
    shard_param, model_numel_tensor)]; [group] is what
    [gpc.get_group(ParallelMode.DATA)] answers.  The snapshot attributes do
    not exist yet. *)
Definition __init__ (target_device_ : torch.device)
    (shard_strategy_ : ShardedTensor -> ShardedTensor) (seed_ : Z) (shard_param_ : bool)
    (model_numel_tensor_ : Z) (group : nat) : M ZeroContextMgr ZeroInitContext :=
  let* cfg := lift_result (ZeroContextConfigM.__init__ target_device_ true shard_param_) in
  let self_ := {| shard_strategy := shard_strategy_;
                  param_list := Some [];
                  model_numel_tensor := model_numel_tensor_;
                  seed := seed_;
                  dp_process_group := group;
                  config := cfg;
                  nn_fanin_fanout := None;
                  cpu_rng_state := None;
                  cuda_rng_state := None |} in
  let* _ := modify (fun _ => {| current_context := Some self_ |}) in
  ret self_.

End ZeroInitContextM.

(** ** Quantities the properties are stated with *)

(** The parameter a reference leads to carries [colo_attr]. *)
Definition wrapped (s : State) (param : nat) : Prop :=
  hasattr_colo_attr (params s !!! param) = true.

Definition sumZ (f : nat -> Z) (l : list nat) : Z :=
  fold_right (fun p acc => f p + acc) 0 l.

(** What a parameter will add to the counter when the hook next meets it:
    nothing once it carries [colo_attr], its element count before. *)
Definition unwrapped_numel (s : State) (param : nat) : Z :=
  if hasattr_colo_attr (params s !!! param) then 0
  else torch.numel (data (params s !!! param)).

Definition pending_numel (s : State) (ps : list nat) : Z :=
  sumZ (unwrapped_numel s) (remove_dups ps).

(** The parameters of a module tree, each once, given the modules the hook
    is fired on. *)
Definition leaf_parameters (modules : list nn_Module) : list nat :=
  remove_dups (concat (map parameters modules)).

Definition int64_range (z : Z) : Prop := - 2 ^ 63 <= z < 2 ^ 63.

(** What the hook leaves alone: everything but the parameter store, the
    buffer store, and the context's list and counter. *)
Definition hook_frame (s s' : State) : Prop :=
  classes s' = classes s
  /\ Module_init_subclass s' = Module_init_subclass s
  /\ Module_old_init_subclass s' = Module_old_init_subclass s
  /\ globals s' = globals s
  /\ trace s' = trace s
  /\ shard_strategy (self s') = shard_strategy (self s)
  /\ seed (self s') = seed (self s)
  /\ dp_process_group (self s') = dp_process_group (self s)
  /\ config (self s') = config (self s)
  /\ nn_fanin_fanout (self s') = nn_fanin_fanout (self s)
  /\ cpu_rng_state (self s') = cpu_rng_state (self s)
  /\ cuda_rng_state (self s') = cuda_rng_state (self s).

(** Where [cast_buffer] leaves a buffer. *)
Definition placed (rt : Runtime) (b : torch.Tensor) : torch.Tensor :=
  cast_tensor_to_fp16
    (torch.to b {| torch.type := "cuda"; torch.index := Some (cuda_current_device rt) |}).

Definition settled (rt : Runtime) (s : State) (buffer : nat) : Prop :=
  exists b, module_buffers s !! buffer = Some b /\ placed rt b = b.

(** A parameter that is marked replicated and whose wrapped tensor is not
    sharded. *)
Definition replicated_and_unsharded (p : nn_Parameter) : bool :=
  match param_is_replicated p, colo_attr p with
  | Some true, Some attr => negb (ShardedTensorM.is_sharded (sharded_data_tensor attr))
  | _, _ => false
  end.

(** The calls the exit callback owes one parameter. *)
Definition exit_events (s : State) (src_rank : Z) (param : nat) : list event :=
  let p := params s !!! param in
  (if replicated_and_unsharded p
   then [Broadcast param (data p) src_rank (dp_process_group (self s))]
   else [])
  ++ [RemoveTorchPayload param].

(** Every parameter on the context's list carries [colo_attr] and the
    [is_replicated] mark. *)
Definition listed_wrapped (s : State) : Prop :=
  exists l, param_list (self s) = Some l
            /\ forall p, p ∈ l ->
                 wrapped s p /\ is_Some (param_is_replicated (params s !!! p)).

(** What the loop of the exit callback leaves alone: all but the trace. *)
Definition trace_frame (s s' : State) : Prop :=
  classes s' = classes s
  /\ Module_init_subclass s' = Module_init_subclass s
  /\ Module_old_init_subclass s' = Module_old_init_subclass s
  /\ self s' = self s
  /\ params s' = params s
  /\ module_buffers s' = module_buffers s
  /\ globals s' = globals s.

(** What torch's own routine computes: the fan-in and fan-out of the
    physical shape of whatever tensor it is given. *)
Definition fan_in_fan_out_of_tensor (tensor : tensor_arg) : result (Z * Z) :=
  fan_in_fan_out_of_shape
    (torch.shape match tensor with
                 | PlainTensor t => t
                 | Param p => data p
                 end).

(** ** Concrete inputs *)

Definition cuda0 : torch.device := {| torch.type := "cuda"; torch.index := Some 0 |}.

Definition host : torch.device := {| torch.type := "cpu"; torch.index := None |}.

(** A context as [ZeroInitContext(target_device=cuda:0, shard_strategy, shard_param=True)]
    leaves it, with a strategy that keeps the payload and marks the entity
    sharded. *)
Definition sample_context : ZeroInitContext :=
  {| shard_strategy := fun t => ShardedTensorM.set_is_sharded t true;
     param_list := Some [];
     model_numel_tensor := 0;
     seed := 2 ^ 10 - 1;
     dp_process_group := 0%nat;
     config := {| target_device := cuda0; is_replicated := true; shard_param := true |};
     nn_fanin_fanout := None;
     cpu_rng_state := None;
     cuda_rng_state := None |}.

Definition sample_runtime : Runtime :=
  {| get_rank := 1;
     get_ranks_in_group := [0; 1];
     cuda_current_device := 0;
     manual_seed := fun _ => Ok ([Byte.x01], [Byte.x02]);
     getrecursionlimit := 1000 |}.

(** A 4x3 float weight and a 4-element bias on the host, not yet wrapped. *)
Definition sample_weight : nn_Parameter :=
  {| data := {| torch.shape := [4; 3]; torch.dtype_of := torch.float32;
                torch.device_of := host |};
     grad := None; param_is_replicated := None; colo_attr := None |}.

Definition sample_bias : nn_Parameter :=
  {| data := {| torch.shape := [4]; torch.dtype_of := torch.float32;
                torch.device_of := host |};
     grad := None; param_is_replicated := None; colo_attr := None |}.

Definition sample_linear : nn_Module := {| parameters := [0; 1]%nat; buffers := [0%nat] |}.

(** [class_of bases mro own_init]: a class as its [class] statement leaves it. *)
Definition class_of (bases_ mro_ : list nat) (own_init : option init_fn) : PyClass :=
  {| bases := bases_; mro := mro_; dict_init := own_init; dict_old_init := None |}.

(** [nn.Module] and [nn.Linear(nn.Module)], each with its own [__init__]. *)
Definition linear_hierarchy : list PyClass :=
  [ class_of [] [0%nat] (Some (defined_init 0));
    class_of [0%nat] [1; 0]%nat (Some (defined_init 1)) ].

(** [Module], [A(Module)], [B(A)], [C(A)] and [D(B, C)], as
    [_NormBase], [_LazyNormBase], [_BatchNorm] and [LazyBatchNorm1d] are
    related in torch. *)
Definition diamond_hierarchy : list PyClass :=
  [ class_of [] [0%nat] (Some (defined_init 0));
    class_of [0%nat] [1; 0]%nat (Some (defined_init 1));
    class_of [1%nat] [2; 1; 0]%nat None;
    class_of [1%nat] [3; 1; 0]%nat None;
    class_of [2; 3]%nat [4; 2; 3; 1; 0]%nat (Some (defined_init 4)) ].

Definition sample_state (cs : list PyClass) : State :=
  {| classes := cs;
     Module_init_subclass := object_init_subclass;
     Module_old_init_subclass := None;
     self := sample_context;
     params := {[ 0%nat := sample_weight; 1%nat := sample_bias ]};
     module_buffers := ∅;
     globals := {| cpu_rng := [Byte.x0a]; cuda_rng := [Byte.x0b];
                   _calculate_fan_in_and_fan_out := fan_in_fan_out_of_tensor |};
     trace := [] |}.

(** The overrides of [no_shard_zero_context(is_replicated=False)]. *)
Definition no_shard_kwargs : config_kwargs :=
  {| kw_target_device := Some cuda0;
     kw_replicated := Some false;
     kw_shard_param := Some false |}.

(** The sample state after the hook has met the weight under the sharding
    configuration and the bias under a replicated, unsharded one. *)
Definition hooked_state : State :=
  let s := fst (_post_init_method sample_runtime
                  {| parameters := [0%nat]; buffers := [] |}
                  (sample_state linear_hierarchy)) in
  let s := with_self
             (with_config {| target_device := cuda0; is_replicated := true;
                             shard_param := false |} (self s)) s in
  fst (_post_init_method sample_runtime {| parameters := [1%nat]; buffers := [] |} s).

(** The entity the hook attaches to a parameter whose payload, once cast
    and moved, is [moved]. *)
Definition wrap_entity (c : ZeroInitContext) (moved : torch.Tensor) : ShardedTensor :=
  let e := ShardedTensorM.__init__ moved HOLD in
  if shard_param (config c) then shard_strategy c e else e.

(** A parameter as the hook leaves it when it meets it unwrapped. *)
Definition adapted (c : ZeroInitContext) (p : nn_Parameter) : nn_Parameter :=
  let e := wrap_entity c (torch.to (half_fn (data p)) (target_device (config c))) in
  {| data := _payload e;
     grad := (fun g => torch.to (half_fn g) (target_device (config c))) <$> grad p;
     param_is_replicated := Some (is_replicated (config c));
     colo_attr := Some {| sharded_data_tensor := e |} |}.

(** The fields of the context the hook reads. *)
Definition same_wrapping (c c' : ZeroInitContext) : Prop :=
  config c' = config c /\ shard_strategy c' = shard_strategy c.

(** The element count a parameter's wrap metadata records. *)
Definition recorded_numel (p : nn_Parameter) : Z :=
  match colo_attr p with
  | Some attr => ShardedTensorM.origin_numel (sharded_data_tensor attr)
  | None => 0
  end.

(** A strategy that works on an entity through the entity's own operations. *)
Definition acts_through_operations (strategy : ShardedTensor -> ShardedTensor) : Prop :=
  forall t, exists ops, strategy t = ShardedTensorM.apply_ops t ops.

(** What the interceptor's class surgery leaves alone: all but the class
    table. *)
Definition class_frame (s s' : State) : Prop :=
  Module_init_subclass s' = Module_init_subclass s
  /\ Module_old_init_subclass s' = Module_old_init_subclass s
  /\ self s' = self s
  /\ params s' = params s
  /\ module_buffers s' = module_buffers s
  /\ globals s' = globals s
  /\ trace s' = trace s.

(** ** The class hierarchy as the traversal sees it *)

(** The direct subclasses of [c], given each class's list of bases. *)
Definition children (bl : list (list nat)) (c : nat) : list nat :=
  List.filter (fun x => match bl !! x with
                        | Some b => existsb (Nat.eqb c) b
                        | None => false
                        end)
              (seq 0 (length bl)).

Fixpoint collect (blocks : list (option (list nat))) : option (list nat) :=
  match blocks with
  | [] => Some []
  | Some l :: rest =>
      match collect rest with
      | Some r => Some (l ++ r)
      | None => None
      end
  | None :: _ => None
  end.

(** The classes below [c] in post-order - for each direct subclass, first
    what lies below it, then the subclass itself - or [None] when the
    hierarchy is deeper than [depth]. *)
Fixpoint visit_order (depth : nat) (bl : list (list nat)) (c : nat) : option (list nat) :=
  match depth with
  | O => None
  | S depth' =>
      collect (map (fun x => match visit_order depth' bl x with
                             | Some l => Some (l ++ [x])
                             | None => None
                             end)
                   (children bl c))
  end.

(** [c] is among the bases of [x]. *)
Definition is_base (bl : list (list nat)) (x c : nat) : Prop :=
  exists b, bl !! x = Some b /\ c ∈ b.

(** [x] is a subclass of [c], directly or through other classes. *)
Inductive descends (bl : list (list nat)) : nat -> nat -> Prop :=
  | descends_base x c : is_base bl x c -> descends bl x c
  | descends_step x y c : descends bl x y -> is_base bl y c -> descends bl x c.

(** Bases are declared before their subclasses. *)
Definition bases_first (bl : list (list nat)) : Prop :=
  forall x c, is_base bl x c -> (c < x)%nat.

(** A class below [nn.Module] with one base, and the resolution order that
    goes with it; [nn.Module] itself has none. *)
Definition tree_class (cs : list PyClass) (x : nat) (k : PyClass) : bool :=
  match bases k with
  | [] => bool_decide (x = nn_Module_class) && bool_decide (mro k = [x])
  | [b] =>
      bool_decide (b < x)%nat
      && (match cs !! b with
          | Some kb => bool_decide (mro k = x :: mro kb)
          | None => false
          end)
  | _ => false
  end.

(** Every class of the table inherits from [nn.Module] along one path. *)
Definition single_inheritance (cs : list PyClass) : bool :=
  forallb (fun x => match cs !! x with
                    | Some k => tree_class cs x k
                    | None => true
                    end)
          (seq 0 (length cs)).

(** A list in which no class comes after one of its subclasses, nor twice. *)
Fixpoint postordered (bl : list (list nat)) (l : list nat) : Prop :=
  match l with
  | [] => True
  | x :: l' =>
      (x ∉ l') /\ (forall y, y ∈ l' -> ~ descends bl y x) /\ postordered bl l'
  end.

(** The table of bases and resolution orders is what it was. *)
Definition same_hierarchy (s s' : State) : Prop :=
  map bases (classes s') = map bases (classes s)
  /\ map mro (classes s') = map mro (classes s).

(** Every base of every class has a smaller number than the class. *)
Definition declared_in_order (cs : list PyClass) : bool :=
  forallb (fun x => match cs !! x with
                    | Some k => forallb (fun b => b <? x)%nat (bases k)
                    | None => true
                    end)
          (seq 0 (length cs)).

(** No class has two bases. *)
Definition one_base (bl : list (list nat)) : Prop :=
  forall x b b', is_base bl x b -> is_base bl x b' -> b = b'.

(** Every resolution order starts with the class itself and goes on with
    classes it descends from. *)
Definition mro_upwards (bl ml : list (list nat)) : Prop :=
  forall x m, ml !! x = Some m ->
    exists tl, m = x :: tl /\ forall z, z ∈ tl -> descends bl x z.

(** A class after [_enable_class] met it with constructor [f] in sight. *)
Definition enabled (f : init_fn) (k : PyClass) : PyClass :=
  {| bases := bases k; mro := mro k;
     dict_init := Some (preprocess_after f); dict_old_init := Some f |}.

(** A class after [_disable_class] found [f] as its [_old_init]. *)
Definition disabled (f : init_fn) (k : PyClass) : PyClass :=
  {| bases := bases k; mro := mro k;
     dict_init := Some f; dict_old_init := dict_old_init k |}.

(** * Properties *)

(** ** Helper facts *)

Lemma rbind_ok {A B} (a : A) (k : A -> result B) : rbind (Ok a) k = k a.
Proof. reflexivity. Qed.

Lemma fold_left_mul_product (dims : list Z) (acc : Z) :
  fold_left (fun acc s => acc * s) dims acc = acc * product dims.
Proof.
  revert acc. induction dims as [|d dims IH]; intros acc; simpl.
  - lia.
  - rewrite IH. unfold product. simpl. lia.
Qed.

Lemma apply_ops_origin (t : ShardedTensor) (ops : list ShardedTensorM.op) :
  _origin_shape (ShardedTensorM.apply_ops t ops) = _origin_shape t
  /\ _origin_numel (ShardedTensorM.apply_ops t ops) = _origin_numel t
  /\ _origin_dtype (ShardedTensorM.apply_ops t ops) = _origin_dtype t.
Proof.
  revert t. induction ops as [|o ops IH]; intros t; [easy|].
  unfold ShardedTensorM.apply_ops in *. simpl.
  destruct (IH (ShardedTensorM.apply_op t o)) as (Hs & Hn & Hd).
  rewrite Hs, Hn, Hd. destruct o; easy.
Qed.

(** The shape [calc_fanin_fanout] works from. *)
Lemma calc_fanin_fanout_of_shape (p : nn_Parameter) (shape : list Z) :
  match colo_attr p with
  | None => torch.shape (data p)
  | Some attr =>
      if negb (ShardedParamV2M.param_is_sharded attr)
      then torch.shape (data p)
      else ShardedTensorM.origin_shape (sharded_data_tensor attr)
  end = shape ->
  calc_fanin_fanout (Param p) = fan_in_fan_out_of_shape shape.
Proof.
  intros Hshape. unfold calc_fanin_fanout. rewrite Hshape.
  destruct shape as [|d0 [|d1 rest]]; try reflexivity.
  replace (length (d0 :: d1 :: rest) <? 2)%nat with false
    by (symmetry; apply Nat.ltb_ge; simpl; lia).
  unfold py_index. cbn [lookup list_lookup rbind drop].
  destruct rest as [|d2 rest].
  - reflexivity.
  - replace (2 <? length (d0 :: d1 :: d2 :: rest))%nat with true
      by (symmetry; apply Nat.ltb_lt; simpl; lia).
    rewrite fold_left_mul_product. cbn [fan_in_fan_out_of_shape].
    rewrite drop_0. f_equal. f_equal; lia.
Qed.

(** ** [ShardedTensor] *)

(** C9: the origin shape, element count and dtype of a [ShardedTensor] are
    those of the tensor it was constructed from, whatever is done to the
    entity afterwards (setting [is_sharded], replacing the payload, moving
    the state), and [is_sharded] is false right after construction. *)
Theorem ShardedTensor_origin_captured_once :
  forall (tensor : torch.Tensor) (state : TensorState) (ops : list ShardedTensorM.op),
    let t := ShardedTensorM.apply_ops (ShardedTensorM.__init__ tensor state) ops in
    ShardedTensorM.origin_shape t = torch.shape tensor
    /\ ShardedTensorM.origin_numel t = torch.numel tensor
    /\ _origin_dtype t = torch.dtype_of tensor
    /\ ShardedTensorM.is_sharded (ShardedTensorM.__init__ tensor state) = false.
Proof.
  intros tensor state ops t.
  destruct (apply_ops_origin (ShardedTensorM.__init__ tensor state) ops) as (Hs & Hn & Hd).
  repeat split; assumption.
Qed.

(** ** [ZeroContextConfig] *)

(** C3: constructing a [ZeroContextConfig] raises exactly when
    [shard_param] is set without [replicated], or [replicated] is set
    without [shard_param] on a target device whose type is not cuda; in
    every other case it returns the configuration holding the three
    arguments unchanged. *)
Theorem ZeroContextConfig_init_invariants :
  forall (d : torch.device) (replicated shard : bool),
    let violated :=
      (shard = true /\ replicated = false)
      \/ (replicated = true /\ shard = false /\ torch.type d <> "cuda"%string) in
    (violated -> exists msg, ZeroContextConfigM.__init__ d replicated shard
                             = Raise (AssertionError msg))
    /\ (~ violated -> ZeroContextConfigM.__init__ d replicated shard
                      = Ok {| target_device := d; is_replicated := replicated;
                              shard_param := shard |})
    /\ ((exists e, ZeroContextConfigM.__init__ d replicated shard = Raise e) <-> violated).
Proof.
  intros d replicated shard violated. subst violated.
  unfold ZeroContextConfigM.__init__, py_assert.
  destruct (String.eqb_spec (torch.type d) "cuda") as [Hd|Hd];
    destruct replicated, shard; simpl;
    (split; [|split; [|split]]);
    try (intros [[? ?]|(? & ? & ?)]; try discriminate; try contradiction; eauto; fail);
    try (intros _; eauto; fail);
    try (intros [e He]; discriminate);
    try (intros Hn; try reflexivity; exfalso; apply Hn; auto; fail);
    try (intros _; left; auto; fail);
    try (intros _; right; auto; fail).
Qed.

(** ** [calc_fanin_fanout] *)

(** C6: on a parameter that carries wrap metadata and is marked sharded,
    the substituted routine returns the fan-in and fan-out of the origin
    shape - [shape[1] * prod(shape[2:])] and [shape[0] * prod(shape[2:])] -
    whatever the physical payload is, and raises the dimension error when the
    origin shape has fewer than two dimensions; on a parameter that is not
    sharded the same holds of the shape of its payload. *)
Theorem calc_fanin_fanout_logical_shape :
  forall (p : nn_Parameter),
    (forall attr,
        colo_attr p = Some attr ->
        ShardedParamV2M.param_is_sharded attr = true ->
        let logical := ShardedTensorM.origin_shape (sharded_data_tensor attr) in
        calc_fanin_fanout (Param p) = fan_in_fan_out_of_shape logical
        /\ (forall physical : torch.Tensor,
               calc_fanin_fanout (Param (with_data physical p))
               = fan_in_fan_out_of_shape logical)
        /\ ((length logical < 2)%nat ->
            exists msg, calc_fanin_fanout (Param p) = Raise (ValueError msg)))
    /\ ((colo_attr p = None
         \/ exists attr, colo_attr p = Some attr
                         /\ ShardedParamV2M.param_is_sharded attr = false) ->
        calc_fanin_fanout (Param p) = fan_in_fan_out_of_shape (torch.shape (data p))
        /\ ((length (torch.shape (data p)) < 2)%nat ->
            exists msg, calc_fanin_fanout (Param p) = Raise (ValueError msg))).
Proof.
  intros p. split.
  - intros attr Hattr Hsharded logical.
    assert (Hcalc : forall q, colo_attr q = Some attr ->
                              calc_fanin_fanout (Param q) = fan_in_fan_out_of_shape logical).
    { intros q Hq. apply calc_fanin_fanout_of_shape. rewrite Hq, Hsharded. reflexivity. }
    split; [|split].
    + apply Hcalc, Hattr.
    + intros physical. apply Hcalc. simpl. exact Hattr.
    + intros Hlen. rewrite (Hcalc p Hattr).
      destruct logical as [|d0 [|d1 rest]]; simpl in *; try lia; eauto.
  - intros Hunsharded.
    assert (Hcalc : calc_fanin_fanout (Param p)
                    = fan_in_fan_out_of_shape (torch.shape (data p))).
    { apply calc_fanin_fanout_of_shape.
      destruct Hunsharded as [Hnone|(attr & Hattr & Hflag)].
      - rewrite Hnone. reflexivity.
      - rewrite Hattr, Hflag. reflexivity. }
    split; [exact Hcalc|].
    intros Hlen. rewrite Hcalc.
    destruct (torch.shape (data p)) as [|d0 [|d1 rest]]; simpl in *; try lia; eauto.
Qed.

(** ** The per-module hook *)

Lemma with_module_buffers_id (s : State) : with_module_buffers (module_buffers s) s = s.
Proof. destruct s; reflexivity. Qed.

Lemma adapt_param_wrapped (s : State) (param : nat) :
  wrapped s param -> adapt_param param s = (s, Ok tt).
Proof.
  unfold wrapped, adapt_param, bind, gets. intros H. cbn. rewrite H. reflexivity.
Qed.

Lemma adapt_param_fresh (s : State) (param : nat) (l : list nat) :
  ~ wrapped s param ->
  param_list (self s) = Some l ->
  exists q,
    hasattr_colo_attr q = true
    /\ param_is_replicated q = Some (is_replicated (config (self s)))
    /\ adapt_param param s =
       (with_self
          (with_param_list (Some (l ++ [param]))
             (with_model_numel_tensor
                (wrap_int64 (model_numel_tensor (self s)
                             + torch.numel (data (params s !!! param))))
                (self s)))
          (with_params (<[param := q]> (params s)) s),
        Ok tt).
Proof.
  unfold wrapped. intros Hfresh Hl.
  destruct (hasattr_colo_attr (params s !!! param)) eqn:Hattr; [congruence|].
  unfold adapt_param, bind, gets, modify, raise. cbn. rewrite Hattr. cbn. rewrite Hl.
  eexists. split; [|split; [|reflexivity]].
  - destruct (shard_param (config (self s))); reflexivity.
  - destruct (params s !!! param) as [d [g|] r c];
      destruct (shard_param (config (self s))); reflexivity.
Qed.

Lemma hook_frame_refl (s : State) : hook_frame s s.
Proof. unfold hook_frame. repeat split. Qed.

Lemma hook_frame_trans (s1 s2 s3 : State) :
  hook_frame s1 s2 -> hook_frame s2 s3 -> hook_frame s1 s3.
Proof.
  unfold hook_frame. intros H12 H23.
  repeat match goal with H : _ /\ _ |- _ => destruct H end.
  repeat split; congruence.
Qed.

Lemma for_each_cons {S A} (x : A) (l : list A) (body : A -> M S unit) (s : S) :
  for_each (x :: l) body s =
  match body x s with
  | (s1, Ok _) => for_each l body s1
  | (s1, Raise e) => (s1, Raise e)
  end.
Proof. reflexivity. Qed.

(** A loop preserves every reflexive and transitive relation that each of
    its iterations preserves, also when an iteration raises. *)
Lemma for_each_preserves {S A} (R : S -> S -> Prop) (body : A -> M S unit) :
  (forall s, R s s) ->
  (forall s1 s2 s3, R s1 s2 -> R s2 s3 -> R s1 s3) ->
  (forall x s s' r, body x s = (s', r) -> R s s') ->
  forall l s s' r, for_each l body s = (s', r) -> R s s'.
Proof.
  intros Hrefl Htrans Hbody l. induction l as [|x l IH]; intros s s' r Hrun.
  - cbn in Hrun. inversion Hrun; subst. apply Hrefl.
  - rewrite for_each_cons in Hrun.
    destruct (body x s) as [s1 [[]|e]] eqn:Hx.
    + eapply Htrans; [eapply Hbody; exact Hx | eapply IH; exact Hrun].
    + inversion Hrun; subst. eapply Hbody; exact Hx.
Qed.

Lemma adapt_param_frame (param : nat) (s s' : State) (r : result unit) :
  adapt_param param s = (s', r) -> hook_frame s s'.
Proof.
  unfold adapt_param, bind, gets, modify, raise. cbn.
  destruct (hasattr_colo_attr (params s !!! param)); cbn.
  - intros H; inversion H; subst. apply hook_frame_refl.
  - destruct (param_list (self s)); intros H; inversion H; subst;
      unfold hook_frame; cbn; repeat split.
Qed.

Lemma cast_buffer_frame (rt : Runtime) (buffer : nat) (s s' : State) (r : result unit) :
  cast_buffer rt buffer s = (s', r) ->
  hook_frame s s' /\ self s' = self s /\ params s' = params s /\ r = Ok tt.
Proof.
  unfold cast_buffer, modify. intros H; inversion H; subst.
  unfold hook_frame; cbn; repeat split.
Qed.

Lemma for_each_cast_buffer (rt : Runtime) (bs : list nat) (s : State) :
  exists s', for_each bs (cast_buffer rt) s = (s', Ok tt)
             /\ hook_frame s s' /\ self s' = self s /\ params s' = params s.
Proof.
  revert s. induction bs as [|b bs IH]; intros s.
  - exists s. cbn. repeat split.
  - rewrite for_each_cons.
    destruct (cast_buffer rt b s) as [s1 r1] eqn:Hb.
    destruct (cast_buffer_frame _ _ _ _ _ Hb) as (Hf & Hself & Hparams & ->).
    destruct (IH s1) as (s' & Hrun & Hf' & Hself' & Hparams').
    exists s'. rewrite Hrun. repeat split; try congruence.
    all: eapply hook_frame_trans; eauto.
Qed.

Lemma _post_init_method_frame (rt : Runtime) (module : nn_Module) (s s' : State)
    (r : result unit) :
  _post_init_method rt module s = (s', r) -> hook_frame s s'.
Proof.
  unfold _post_init_method, bind. intros H.
  destruct (for_each (parameters module) adapt_param s) as [s1 [[]|e]] eqn:Hp.
  - eapply hook_frame_trans.
    + eapply (for_each_preserves hook_frame); eauto using hook_frame_refl, hook_frame_trans.
      intros; eapply adapt_param_frame; eauto.
    + destruct (for_each_cast_buffer rt (buffers module) s1) as (s2 & Hrun & Hf & _).
      rewrite Hrun in H. inversion H; subst. exact Hf.
  - inversion H; subst.
    eapply (for_each_preserves hook_frame); eauto using hook_frame_refl, hook_frame_trans.
    intros; eapply adapt_param_frame; eauto.
Qed.

(** ** Counting elements *)

Lemma wrap_int64_range (z : Z) : int64_range (wrap_int64 z).
Proof.
  unfold int64_range, wrap_int64.
  pose proof (Z.mod_pos_bound (z + 2 ^ 63) (2 ^ 64) ltac:(lia)). lia.
Qed.

Lemma wrap_int64_small (z : Z) : int64_range z -> wrap_int64 z = z.
Proof.
  unfold int64_range, wrap_int64. intros H.
  rewrite Z.mod_small by lia. lia.
Qed.

Lemma wrap_int64_add_l (a b : Z) : wrap_int64 (wrap_int64 a + b) = wrap_int64 (a + b).
Proof.
  unfold wrap_int64. f_equal.
  replace ((a + 2 ^ 63) mod 2 ^ 64 - 2 ^ 63 + b + 2 ^ 63)
    with ((a + 2 ^ 63) mod 2 ^ 64 + b) by lia.
  rewrite Zplus_mod_idemp_l. f_equal. lia.
Qed.

Lemma sumZ_cons (f : nat -> Z) (x : nat) (l : list nat) :
  sumZ f (x :: l) = f x + sumZ f l.
Proof. reflexivity. Qed.

Lemma sumZ_ext (f g : nat -> Z) (l : list nat) :
  (forall p, p ∈ l -> f p = g p) -> sumZ f l = sumZ g l.
Proof.
  induction l as [|x l IH]; intros H; [reflexivity|].
  rewrite !sumZ_cons. rewrite (H x) by constructor. rewrite IH; [reflexivity|].
  intros p Hp. apply H. now constructor.
Qed.

Section SumZeroedAt.

(** [g] is [f] zeroed at [p]. *)
Variables (f g : nat -> Z) (p : nat).
Hypothesis g_elsewhere : forall q, q <> p -> g q = f q.
Hypothesis g_at_p : g p = 0.

(** Zeroing [f] at one point of a duplicate-free list takes that one term
    out of the sum. *)
Lemma sumZ_split (l : list nat) :
  NoDup l ->
  sumZ f l = (if decide (p ∈ l) then f p else 0) + sumZ g l.
Proof.
  intros Hnd. induction Hnd as [|x l Hx Hnd IH].
  - destruct (decide (p ∈ [])) as [Hin|_]; [inversion Hin|reflexivity].
  - rewrite !sumZ_cons, IH. destruct (decide (x = p)) as [->|Hne].
    + rewrite g_at_p.
      destruct (decide (p ∈ p :: l)) as [_|Hn]; [|exfalso; apply Hn; constructor].
      destruct (decide (p ∈ l)); [contradiction|lia].
    + rewrite (g_elsewhere x Hne).
      destruct (decide (p ∈ l)) as [Hin|Hnin].
      * destruct (decide (p ∈ x :: l)) as [_|Hn]; [lia|].
        exfalso; apply Hn; now constructor.
      * destruct (decide (p ∈ x :: l)) as [Hin|_]; [|lia].
        apply elem_of_cons in Hin as [->|Hin]; contradiction.
Qed.

Lemma sumZ_remove_dups_cons (l : list nat) :
  sumZ f (remove_dups (p :: l)) = f p + sumZ g (remove_dups l).
Proof.
  cbn [remove_dups].
  pose proof (sumZ_split (remove_dups l) (NoDup_remove_dups l)) as Hs.
  destruct (decide_rel elem_of p l) as [Hin|Hnin].
  - rewrite Hs. destruct (decide (p ∈ remove_dups l)) as [_|Hn]; [reflexivity|].
    exfalso; apply Hn. rewrite elem_of_remove_dups. exact Hin.
  - rewrite !sumZ_cons, Hs. destruct (decide (p ∈ remove_dups l)) as [Hin|_]; [|lia].
    rewrite elem_of_remove_dups in Hin. exfalso. exact (Hnin Hin).
Qed.

End SumZeroedAt.

Lemma pending_numel_wrapped (s : State) (p : nat) (ps : list nat) :
  wrapped s p -> pending_numel s (p :: ps) = pending_numel s ps.
Proof.
  unfold wrapped, pending_numel. intros Hw.
  rewrite (sumZ_remove_dups_cons (unwrapped_numel s) (unwrapped_numel s)); auto.
  all: unfold unwrapped_numel; rewrite Hw; reflexivity.
Qed.

Lemma pending_numel_same (s s' : State) (ps : list nat) :
  params s' = params s -> pending_numel s' ps = pending_numel s ps.
Proof.
  intros H. unfold pending_numel, unwrapped_numel. rewrite H. reflexivity.
Qed.

(** The loop over a module's parameters: it returns, and the counter grows
    by what the parameters met had pending. *)
Lemma for_each_adapt_param (ps : list nat) :
  forall (s : State) (l : list nat) (rest : list nat),
    param_list (self s) = Some l ->
    exists s' l',
      for_each ps adapt_param s = (s', Ok tt)
      /\ param_list (self s') = Some l'
      /\ wrap_int64 (model_numel_tensor (self s') + pending_numel s' rest)
         = wrap_int64 (model_numel_tensor (self s) + pending_numel s (ps ++ rest))
      /\ (int64_range (model_numel_tensor (self s)) ->
          int64_range (model_numel_tensor (self s')))
      /\ (forall p, wrapped s p -> wrapped s' p)
      /\ (forall p, p ∈ ps -> wrapped s' p).
Proof.
  induction ps as [|p ps IH]; intros s l rest Hl.
  - exists s, l. split_and!; auto. intros p Hp. inversion Hp.
  - rewrite for_each_cons.
    destruct (hasattr_colo_attr (params s !!! p)) eqn:Hattr.
    + rewrite (adapt_param_wrapped s p Hattr).
      destruct (IH s l rest Hl) as (s' & l' & Hrun & Hl' & Hcount & Hrange & Hmono & Hall).
      exists s', l'. split_and!; auto.
      * rewrite Hcount. cbn [app]. now rewrite pending_numel_wrapped.
      * intros q Hq. apply elem_of_cons in Hq as [->|Hq]; auto.
    + destruct (adapt_param_fresh s p l) as (q & Hq & _ & Hstep); auto.
      { unfold wrapped. rewrite Hattr. discriminate. }
      rewrite Hstep.
      remember (with_self
                  (with_param_list (Some (l ++ [p]))
                     (with_model_numel_tensor
                        (wrap_int64 (model_numel_tensor (self s)
                                     + torch.numel (data (params s !!! p))))
                        (self s)))
                  (with_params (<[p:=q]> (params s)) s)) as s1 eqn:Es1.
      assert (Hs1 : forall x, params s1 !!! x
                              = if decide (x = p) then q else params s !!! x).
      { intros x. subst s1. cbn. destruct (decide (x = p)) as [->|Hne].
        - apply lookup_total_insert_eq.
        - now apply lookup_total_insert_ne. }
      assert (Hc1 : model_numel_tensor (self s1)
                    = wrap_int64 (model_numel_tensor (self s)
                                  + torch.numel (data (params s !!! p))))
        by (subst s1; reflexivity).
      assert (Hl1 : param_list (self s1) = Some (l ++ [p])) by (subst s1; reflexivity).
      assert (Hp : unwrapped_numel s p = torch.numel (data (params s !!! p)))
        by (unfold unwrapped_numel; now rewrite Hattr).
      clear Es1 Hstep.
      destruct (IH s1 (l ++ [p]) rest Hl1)
        as (s' & l' & Hrun & Hl' & Hcount & Hrange & Hmono & Hall).
      exists s', l'. split_and!; auto.
      * rewrite Hcount, Hc1, wrap_int64_add_l. f_equal. cbn [app]. unfold pending_numel.
        rewrite (sumZ_remove_dups_cons (unwrapped_numel s) (unwrapped_numel s1) p).
        -- rewrite Hp. lia.
        -- intros x Hne. unfold unwrapped_numel. rewrite Hs1.
           destruct (decide (x = p)); [contradiction|reflexivity].
        -- unfold unwrapped_numel. rewrite Hs1.
           destruct (decide (p = p)); [|contradiction]. now rewrite Hq.
      * intros _. apply Hrange. rewrite Hc1. apply wrap_int64_range.
      * intros x Hx. apply Hmono. unfold wrapped. rewrite Hs1.
        destruct (decide (x = p)); [exact Hq|exact Hx].
      * intros x Hx. apply elem_of_cons in Hx as [->|Hx]; auto.
        apply Hmono. unfold wrapped. rewrite Hs1.
        destruct (decide (p = p)); [exact Hq|contradiction].
Qed.

Lemma _post_init_method_counts (rt : Runtime) (module : nn_Module) (s : State)
    (l rest : list nat) :
  param_list (self s) = Some l ->
  exists s' l',
    _post_init_method rt module s = (s', Ok tt)
    /\ param_list (self s') = Some l'
    /\ wrap_int64 (model_numel_tensor (self s') + pending_numel s' rest)
       = wrap_int64 (model_numel_tensor (self s)
                     + pending_numel s (parameters module ++ rest))
    /\ (int64_range (model_numel_tensor (self s)) ->
        int64_range (model_numel_tensor (self s')))
    /\ (forall p, wrapped s p -> wrapped s' p)
    /\ (forall p, p ∈ parameters module -> wrapped s' p).
Proof.
  intros Hl.
  destruct (for_each_adapt_param (parameters module) s l rest Hl)
    as (s1 & l1 & Hrun & Hl1 & Hcount & Hrange & Hmono & Hall).
  destruct (for_each_cast_buffer rt (buffers module) s1) as (s2 & Hrun2 & _ & Hself & Hparams).
  exists s2, l1. unfold _post_init_method, bind. rewrite Hrun, Hrun2.
  unfold wrapped in *. rewrite Hself, Hparams, (pending_numel_same s1 s2) by assumption.
  split_and!; auto.
Qed.

(** The hook fired on a sequence of modules. *)
Lemma for_each_post_init_method (rt : Runtime) (modules : list nn_Module) :
  forall (s : State) (l rest : list nat),
    param_list (self s) = Some l ->
    exists s' l',
      for_each modules (_post_init_method rt) s = (s', Ok tt)
      /\ param_list (self s') = Some l'
      /\ wrap_int64 (model_numel_tensor (self s') + pending_numel s' rest)
         = wrap_int64 (model_numel_tensor (self s)
                       + pending_numel s (concat (map parameters modules) ++ rest))
      /\ (int64_range (model_numel_tensor (self s)) ->
          int64_range (model_numel_tensor (self s')))
      /\ (forall p, wrapped s p -> wrapped s' p)
      /\ (forall p, p ∈ concat (map parameters modules) -> wrapped s' p).
Proof.
  induction modules as [|m modules IH]; intros s l rest Hl.
  - exists s, l. split_and!; auto. intros p Hp. inversion Hp.
  - rewrite for_each_cons.
    destruct (_post_init_method_counts rt m s l
                (concat (map parameters modules) ++ rest) Hl)
      as (s1 & l1 & Hrun & Hl1 & Hcount & Hrange & Hmono & Hall).
    rewrite Hrun.
    destruct (IH s1 l1 rest Hl1) as (s' & l' & Hrun' & Hl' & Hcount' & Hrange' & Hmono' & Hall').
    exists s', l'. split_and!; auto.
    + rewrite Hcount', Hcount. cbn [map concat]. now rewrite <- app_assoc.
    + intros p Hp. cbn [map concat] in Hp. apply elem_of_app in Hp as [Hp|Hp]; auto.
Qed.

Lemma for_each_adapt_param_wrapped (ps : list nat) (s : State) :
  (forall p, p ∈ ps -> wrapped s p) -> for_each ps adapt_param s = (s, Ok tt).
Proof.
  induction ps as [|p ps IH]; intros H; [reflexivity|].
  rewrite for_each_cons, adapt_param_wrapped by (apply H; constructor).
  apply IH. intros q Hq. apply H. now constructor.
Qed.

Lemma placed_idempotent (rt : Runtime) (b : torch.Tensor) :
  placed rt (placed rt b) = placed rt b.
Proof. destruct b as [sh [] dev]; reflexivity. Qed.

Lemma cast_buffer_settled (rt : Runtime) (s : State) (buffer : nat) :
  settled rt s buffer -> cast_buffer rt buffer s = (s, Ok tt).
Proof.
  intros (b & Hb & Hfix). unfold cast_buffer, modify.
  rewrite (lookup_total_correct _ _ _ Hb). fold (placed rt b). rewrite Hfix.
  rewrite insert_id by exact Hb. now rewrite with_module_buffers_id.
Qed.

Lemma cast_buffer_settles (rt : Runtime) (s : State) (buffer : nat) :
  settled rt (fst (cast_buffer rt buffer s)) buffer
  /\ (forall b, settled rt s b -> settled rt (fst (cast_buffer rt buffer s)) b).
Proof.
  unfold cast_buffer, modify, settled. cbn.
  fold (placed rt (module_buffers s !!! buffer)). split.
  - eexists. split; [apply lookup_insert_eq|apply placed_idempotent].
  - intros b (v & Hv & Hfix). destruct (decide (buffer = b)) as [->|Hne].
    + eexists. split; [apply lookup_insert_eq|apply placed_idempotent].
    + exists v. split; [|exact Hfix]. now rewrite lookup_insert_ne.
Qed.

Lemma for_each_cast_buffer_settles (rt : Runtime) (bs : list nat) :
  forall s, exists s',
    for_each bs (cast_buffer rt) s = (s', Ok tt)
    /\ self s' = self s /\ params s' = params s
    /\ (forall b, settled rt s b -> settled rt s' b)
    /\ (forall b, b ∈ bs -> settled rt s' b).
Proof.
  induction bs as [|b bs IH]; intros s.
  - exists s. split_and!; auto. intros b Hb. inversion Hb.
  - rewrite for_each_cons.
    destruct (cast_buffer rt b s) as [s1 r1] eqn:Hb.
    destruct (cast_buffer_frame _ _ _ _ _ Hb) as (_ & Hself & Hparams & ->).
    pose proof (cast_buffer_settles rt s b) as [Hnow Hkeep]. rewrite Hb in Hnow, Hkeep.
    cbn [fst] in Hnow, Hkeep.
    destruct (IH s1) as (s' & Hrun & Hself' & Hparams' & Hkeep' & Hall).
    exists s'. split_and!; auto; try congruence.
    intros x Hx. apply elem_of_cons in Hx as [->|Hx]; auto.
Qed.

Lemma for_each_cast_buffer_settled (rt : Runtime) (bs : list nat) (s : State) :
  (forall b, b ∈ bs -> settled rt s b) -> for_each bs (cast_buffer rt) s = (s, Ok tt).
Proof.
  induction bs as [|b bs IH]; intros H; [reflexivity|].
  rewrite for_each_cons, cast_buffer_settled by (apply H; constructor).
  apply IH. intros q Hq. apply H. now constructor.
Qed.

(** C5: while the context holds its [param_list], the hook returns on every
    module, and fired again on the same module it returns and leaves the whole
    state as the first firing left it - [param_list], [model_numel_tensor]
    and every parameter included: each parameter of the module carries
    [colo_attr] by then and is skipped. *)
Theorem _post_init_method_idempotent :
  forall (rt : Runtime) (s : State) (module : nn_Module) (l : list nat),
    param_list (self s) = Some l ->
    exists s1,
      _post_init_method rt module s = (s1, Ok tt)
      /\ (forall p, p ∈ parameters module -> wrapped s1 p)
      /\ _post_init_method rt module s1 = (s1, Ok tt).
Proof.
  intros rt s module l Hl.
  destruct (for_each_adapt_param (parameters module) s l [] Hl)
    as (s1 & l1 & Hrun & _ & _ & _ & _ & Hall).
  destruct (for_each_cast_buffer_settles rt (buffers module) s1)
    as (s2 & Hrun2 & _ & Hparams & _ & Hsettled).
  assert (Hall2 : forall p, p ∈ parameters module -> wrapped s2 p).
  { intros p Hp. unfold wrapped. rewrite Hparams. now apply Hall. }
  exists s2. unfold _post_init_method, bind. rewrite Hrun, Hrun2.
  split_and!; auto.
  rewrite for_each_adapt_param_wrapped by exact Hall2.
  now rewrite for_each_cast_buffer_settled.
Qed.

(** C8: fired on the modules of a tree built inside the scope - in any
    order, any number of times each - the hook leaves in
    [model_numel_tensor], which started at zero, the sum of the element
    counts the leaf parameters had before the hook touched them, each
    parameter counted once; the sum is taken to fit the 64-bit counter. *)
Theorem model_numel_tensor_sums_leaf_parameters :
  forall (rt : Runtime) (s : State) (modules : list nn_Module) (l : list nat),
    param_list (self s) = Some l ->
    model_numel_tensor (self s) = 0 ->
    (forall p, p ∈ leaf_parameters modules -> ~ wrapped s p) ->
    int64_range (sumZ (fun p => torch.numel (data (params s !!! p)))
                   (leaf_parameters modules)) ->
    exists s',
      for_each modules (_post_init_method rt) s = (s', Ok tt)
      /\ model_numel_tensor (self s')
         = sumZ (fun p => torch.numel (data (params s !!! p))) (leaf_parameters modules)
      /\ (forall p, p ∈ leaf_parameters modules -> wrapped s' p).
Proof.
  intros rt s modules l Hl Hzero Hfresh Hfits.
  destruct (for_each_post_init_method rt modules s l [] Hl)
    as (s' & l' & Hrun & _ & Hcount & Hrange & _ & Hall).
  exists s'. split_and!; auto.
  - assert (Hpending : pending_numel s (concat (map parameters modules) ++ [])
                       = sumZ (fun p => torch.numel (data (params s !!! p)))
                           (leaf_parameters modules)).
    { rewrite app_nil_r. unfold pending_numel, leaf_parameters.
      apply sumZ_ext. intros p Hp. unfold unwrapped_numel.
      destruct (hasattr_colo_attr (params s !!! p)) eqn:Hattr; [|reflexivity].
      exfalso. exact (Hfresh p Hp Hattr). }
    rewrite Hzero, Hpending in Hcount.
    unfold pending_numel in Hcount at 1. cbn [remove_dups sumZ fold_right] in Hcount.
    rewrite Z.add_0_r, Z.add_0_l in Hcount.
    rewrite (wrap_int64_small _ Hfits) in Hcount.
    rewrite wrap_int64_small in Hcount; [exact Hcount|].
    apply Hrange. rewrite Hzero. unfold int64_range. lia.
  - intros p Hp. apply Hall. unfold leaf_parameters in Hp.
    now rewrite elem_of_remove_dups in Hp.
Qed.

(** ** Entering and leaving the context *)

Lemma _pre_context_exec_snapshots (rt : Runtime) (s s1 : State) :
  _pre_context_exec rt s = (s1, Ok tt) ->
  nn_fanin_fanout (self s1) = Some (_calculate_fan_in_and_fan_out (globals s))
  /\ cpu_rng_state (self s1) = Some (cpu_rng (globals s))
  /\ cuda_rng_state (self s1) = Some (cuda_rng (globals s))
  /\ _calculate_fan_in_and_fan_out (globals s1) = calc_fanin_fanout
  /\ manual_seed rt (seed (self s) + (seed (self s) + 1) * get_rank rt)
     = Ok (cpu_rng (globals s1), cuda_rng (globals s1))
  /\ param_list (self s1) = param_list (self s)
  /\ params s1 = params s
  /\ trace s1 = trace s.
Proof.
  unfold _pre_context_exec, bind, modify, gets, lift_result. cbn.
  destruct (manual_seed rt (seed (self s) + (seed (self s) + 1) * get_rank rt))
    as [[cpu cuda]|e]; intros H; inversion H; subst; cbn.
  split_and!; reflexivity.
Qed.

Lemma trace_frame_refl (s : State) : trace_frame s s.
Proof. unfold trace_frame. split_and!; reflexivity. Qed.

Lemma trace_frame_trans (s1 s2 s3 : State) :
  trace_frame s1 s2 -> trace_frame s2 s3 -> trace_frame s1 s3.
Proof.
  unfold trace_frame. intros H12 H23.
  repeat match goal with H : _ /\ _ |- _ => destruct H end.
  split_and!; congruence.
Qed.

Lemma broadcast_and_release_frame (src_rank : Z) (param : nat) (s s' : State)
    (r : result unit) :
  broadcast_and_release src_rank param s = (s', r) -> trace_frame s s'.
Proof.
  unfold broadcast_and_release, bind, gets, log_event, modify, raise, ret. cbn.
  destruct (colo_attr (params s !!! param)) as [attr|]; cbn.
  - destruct (negb (ShardedParamV2M.param_is_sharded attr)); cbn.
    + destruct (param_is_replicated (params s !!! param)) as [[]|]; cbn;
        intros H; inversion H; subst; unfold trace_frame; cbn; split_and!; reflexivity.
    + intros H; inversion H; subst; unfold trace_frame; cbn; split_and!; reflexivity.
  - intros H; inversion H; subst. apply trace_frame_refl.
Qed.

Lemma broadcast_and_release_listed (src_rank : Z) (param : nat) (s : State) :
  wrapped s param ->
  is_Some (param_is_replicated (params s !!! param)) ->
  broadcast_and_release src_rank param s
  = (with_trace (trace s ++ exit_events s src_rank param) s, Ok tt).
Proof.
  unfold wrapped, hasattr_colo_attr, exit_events, replicated_and_unsharded.
  intros Hw [b Hb].
  unfold broadcast_and_release, bind, gets, log_event, modify, raise, ret. cbn.
  destruct (colo_attr (params s !!! param)) as [attr|]; [|discriminate].
  rewrite Hb. unfold ShardedParamV2M.param_is_sharded.
  destruct (ShardedTensorM.is_sharded (sharded_data_tensor attr)), b; cbn;
    rewrite <- ?app_assoc; reflexivity.
Qed.

Lemma for_each_broadcast_and_release (src_rank : Z) (l : list nat) :
  forall s,
    (forall p, p ∈ l ->
       wrapped s p /\ is_Some (param_is_replicated (params s !!! p))) ->
    for_each l (broadcast_and_release src_rank) s
    = (with_trace (trace s ++ flat_map (exit_events s src_rank) l) s, Ok tt).
Proof.
  induction l as [|p l IH]; intros s H.
  - cbn. rewrite app_nil_r. destruct s; reflexivity.
  - rewrite for_each_cons.
    destruct (H p ltac:(constructor)) as [Hw Hr].
    rewrite (broadcast_and_release_listed src_rank p s Hw Hr).
    rewrite IH.
    + cbn [flat_map]. rewrite app_assoc. reflexivity.
    + intros q Hq. apply H. now constructor.
Qed.

(** C4: when every parameter on [param_list] carries its wrap metadata (the
    callback's own assertion), the exit callback makes, for each parameter
    in list order, a broadcast of its data from the first rank of the data
    parallel group exactly if the parameter is marked replicated and its
    wrapped tensor is not sharded, and then, whatever those flags are, the
    call that releases its torch payload. *)
Theorem _post_context_exec_broadcasts_and_releases :
  forall (rt : Runtime) (s : State) (l : list nat) (src_rank : Z) (others : list Z),
    param_list (self s) = Some l ->
    get_ranks_in_group rt = src_rank :: others ->
    (forall p, p ∈ l ->
       wrapped s p /\ is_Some (param_is_replicated (params s !!! p))) ->
    let s' := fst (_post_context_exec rt s) in
    let made := flat_map (exit_events s src_rank) l in
    trace s' = trace s ++ made
    /\ (forall p, p ∈ l ->
          ((exists tensor src group, Broadcast p tensor src group ∈ made)
           <-> replicated_and_unsharded (params s !!! p) = true)
          /\ (replicated_and_unsharded (params s !!! p) = true ->
              Broadcast p (data (params s !!! p)) src_rank (dp_process_group (self s))
              ∈ made)
          /\ RemoveTorchPayload p ∈ made).
Proof.
  intros rt s l src_rank others Hl Hranks Hlisted s' made.
  split.
  - subst s'. cbv [_post_context_exec bind lift_result getattr_self gets ret raise modify].
    rewrite Hranks. cbn [py_index lookup list_lookup]. rewrite Hl.
    rewrite (for_each_broadcast_and_release src_rank l s Hlisted).
    subst made. generalize (flat_map (exit_events s src_rank) l) as evs. intros evs.
    destruct s as [cs hook old_hook [strategy pl counter sd group cfg [fan|] [cpu|] [cuda|]]
                     ps bufs g tr]; reflexivity.
  - intros p Hp. subst made.
    assert (Hin : forall e, e ∈ flat_map (exit_events s src_rank) l
                            <-> exists x, x ∈ l /\ e ∈ exit_events s src_rank x).
    { intros e. rewrite list_elem_of_In, in_flat_map. split.
      - intros (x & Hx & He). exists x. rewrite !list_elem_of_In. auto.
      - intros (x & Hx & He). exists x. rewrite <- !list_elem_of_In. auto. }
    split_and!.
    + split.
      * intros (tensor & src & group & Hb). apply Hin in Hb as (x & _ & Hb).
        unfold exit_events in Hb.
        destruct (replicated_and_unsharded (params s !!! x)) eqn:Hx; cbn in Hb.
        -- apply elem_of_cons in Hb as [Hb|Hb].
           ++ inversion Hb; subst. exact Hx.
           ++ apply elem_of_cons in Hb as [Hb|Hb]; [discriminate|inversion Hb].
        -- apply elem_of_cons in Hb as [Hb|Hb]; [discriminate|inversion Hb].
      * intros Hdue. eexists _, _, _. apply Hin. exists p. split; [exact Hp|].
        unfold exit_events. rewrite Hdue. constructor.
    + intros Hdue. apply Hin. exists p. split; [exact Hp|].
      unfold exit_events. rewrite Hdue. constructor.
    + apply Hin. exists p. split; [exact Hp|].
      unfold exit_events. apply elem_of_app. right. constructor.
Qed.

(** The hook keeps every listed parameter wrapped. *)
Lemma adapt_param_listed (param : nat) (s s' : State) (r : result unit) :
  adapt_param param s = (s', r) -> listed_wrapped s -> listed_wrapped s'.
Proof.
  intros Hrun (l & Hl & Hlisted).
  destruct (hasattr_colo_attr (params s !!! param)) eqn:Hattr.
  - rewrite (adapt_param_wrapped s param Hattr) in Hrun. inversion Hrun; subst.
    exists l. auto.
  - destruct (adapt_param_fresh s param l) as (q & Hq & Hrep & Hstep); auto.
    { unfold wrapped. rewrite Hattr. discriminate. }
    rewrite Hstep in Hrun. inversion Hrun; subst. clear Hrun Hstep.
    exists (l ++ [param]). split; [reflexivity|].
    intros p Hp. unfold wrapped. cbn.
    destruct (decide (p = param)) as [->|Hne].
    + rewrite lookup_total_insert_eq. rewrite Hq, Hrep. split; [reflexivity|eauto].
    + rewrite lookup_total_insert_ne by congruence.
      apply elem_of_app in Hp as [Hp|Hp]; [now apply Hlisted|].
      apply elem_of_cons in Hp as [Hp|Hp]; [contradiction|inversion Hp].
Qed.

Lemma _post_init_method_listed (rt : Runtime) (module : nn_Module) (s s' : State)
    (r : result unit) :
  _post_init_method rt module s = (s', r) -> listed_wrapped s -> listed_wrapped s'.
Proof.
  unfold _post_init_method, bind. intros Hrun Hs.
  assert (Hloop : forall s1 r1, for_each (parameters module) adapt_param s = (s1, r1) ->
                                listed_wrapped s1).
  { intros s1 r1 H1.
    refine (for_each_preserves (fun a b => listed_wrapped a -> listed_wrapped b)
              adapt_param _ _ _ _ _ _ _ H1 Hs); eauto.
    intros x a b r2 Hx. eapply adapt_param_listed; eauto. }
  destruct (for_each (parameters module) adapt_param s) as [s1 [[]|e]] eqn:Hp.
  - destruct (for_each_cast_buffer rt (buffers module) s1) as (s2 & Hrun2 & _ & Hself & Hparams).
    rewrite Hrun2 in Hrun. inversion Hrun; subst.
    destruct (Hloop s1 (Ok tt) eq_refl) as (l & Hl & Hlisted).
    exists l. unfold wrapped in *. rewrite Hself, Hparams. auto.
  - inversion Hrun; subst. eapply Hloop; eauto.
Qed.

Lemma for_each_broadcast_and_release_frame (src_rank : Z) (l : list nat) (s s' : State)
    (r : result unit) :
  for_each l (broadcast_and_release src_rank) s = (s', r) -> trace_frame s s'.
Proof.
  apply (for_each_preserves trace_frame);
    eauto using trace_frame_refl, trace_frame_trans, broadcast_and_release_frame.
Qed.

(** What a completed exit callback has written to the process-wide state. *)
Lemma _post_context_exec_restores (rt : Runtime) (s s' : State) :
  _post_context_exec rt s = (s', Ok tt) ->
  nn_fanin_fanout (self s) = Some (_calculate_fan_in_and_fan_out (globals s'))
  /\ cpu_rng_state (self s) = Some (cpu_rng (globals s'))
  /\ cuda_rng_state (self s) = Some (cuda_rng (globals s'))
  /\ param_list (self s') = None.
Proof.
  cbv [_post_context_exec bind lift_result getattr_self gets ret raise modify].
  destruct (py_index (get_ranks_in_group rt) 0) as [src|e]; [|discriminate].
  destruct (param_list (self s)) as [l|]; [|discriminate].
  destruct (for_each l (broadcast_and_release src) s) as [s1 [[]|e]] eqn:Hloop;
    [|discriminate].
  apply for_each_broadcast_and_release_frame in Hloop.
  destruct Hloop as (_ & _ & _ & Hself & _ & _ & _).
  rewrite <- Hself. clear Hself.
  destruct s1 as [cs hook old_hook [strategy pl counter sd group cfg [fan|] [cpu|] [cuda|]]
                    ps bufs g tr]; cbn; intros H; inversion H; subst; cbn.
  split_and!; reflexivity.
Qed.

(** A callback that finds its list, its snapshots and a rank to broadcast
    from, with every listed parameter wrapped, runs to completion. *)
Lemma _post_context_exec_returns (rt : Runtime) (s : State) :
  listed_wrapped s ->
  get_ranks_in_group rt <> [] ->
  is_Some (nn_fanin_fanout (self s)) ->
  is_Some (cpu_rng_state (self s)) ->
  is_Some (cuda_rng_state (self s)) ->
  exists s', _post_context_exec rt s = (s', Ok tt).
Proof.
  intros (l & Hl & Hlisted) Hranks [fan Hfan] [cpu Hcpu] [cuda Hcuda].
  destruct (get_ranks_in_group rt) as [|src others] eqn:Hr; [contradiction|].
  cbv [_post_context_exec bind lift_result getattr_self gets ret raise modify].
  rewrite Hr. cbn [py_index lookup list_lookup]. rewrite Hl.
  rewrite (for_each_broadcast_and_release src l s Hlisted).
  generalize (flat_map (exit_events s src) l) as evs. intros evs.
  destruct s as [cs hook old_hook [strategy pl counter sd group cfg fan' cpu' cuda']
                   ps bufs g tr]. cbn in *. subst. eexists. reflexivity.
Qed.

(** C7: whatever happens between the entry callback and the exit callback,
    as long as the context keeps the three snapshots it took at entry, once
    the exit callback has run the host generator state and the accelerator
    generator state are the ones captured at entry, and
    [nn.init._calculate_fan_in_and_fan_out] is the routine that was installed
    before entry. *)
Theorem scope_restores_rng_and_fan_routine :
  forall (rt : Runtime) (s s1 s2 s3 : State),
    _pre_context_exec rt s = (s1, Ok tt) ->
    nn_fanin_fanout (self s2) = nn_fanin_fanout (self s1) ->
    cpu_rng_state (self s2) = cpu_rng_state (self s1) ->
    cuda_rng_state (self s2) = cuda_rng_state (self s1) ->
    _post_context_exec rt s2 = (s3, Ok tt) ->
    cpu_rng (globals s3) = cpu_rng (globals s)
    /\ cuda_rng (globals s3) = cuda_rng (globals s)
    /\ _calculate_fan_in_and_fan_out (globals s3)
       = _calculate_fan_in_and_fan_out (globals s).
Proof.
  intros rt s s1 s2 s3 Hpre Hfan Hcpu Hcuda Hpost.
  apply _pre_context_exec_snapshots in Hpre as (Hfan1 & Hcpu1 & Hcuda1 & _).
  apply _post_context_exec_restores in Hpost as (Hfan3 & Hcpu3 & Hcuda3 & _).
  rewrite Hfan, Hfan1 in Hfan3. rewrite Hcpu, Hcpu1 in Hcpu3.
  rewrite Hcuda, Hcuda1 in Hcuda3.
  split_and!; congruence.
Qed.

(** C10: the routine [_pre_context_exec] installs raises the assertion
    error on every tensor that is not a parameter, whatever routine it
    replaces and whatever that routine answers on the tensor, and the hook
    leaves the installed routine in place. *)
Theorem substituted_fan_routine_rejects_plain_tensors :
  forall (rt : Runtime) (s : State) (t : torch.Tensor),
    (exists msg, calc_fanin_fanout (PlainTensor t) = Raise (AssertionError msg))
    /\ (forall s1,
          _pre_context_exec rt s = (s1, Ok tt) ->
          (exists msg, _calculate_fan_in_and_fan_out (globals s1) (PlainTensor t)
                       = Raise (AssertionError msg))
          /\ (forall modules s2 r,
                for_each modules (_post_init_method rt) s1 = (s2, r) ->
                exists msg, _calculate_fan_in_and_fan_out (globals s2) (PlainTensor t)
                            = Raise (AssertionError msg))).
Proof.
  intros rt s t. split; [eexists; reflexivity|].
  intros s1 Hpre.
  apply _pre_context_exec_snapshots in Hpre as (_ & _ & _ & Hfan & _).
  split.
  - rewrite Hfan. eexists; reflexivity.
  - intros modules s2 r Hrun.
    assert (Hframe : hook_frame s1 s2).
    { eapply (for_each_preserves hook_frame);
        eauto using hook_frame_refl, hook_frame_trans, _post_init_method_frame. }
    destruct Hframe as (_ & _ & _ & Hg & _). rewrite Hg, Hfan. eexists; reflexivity.
Qed.

(** ** [ZeroContextMgr.hijack_context_config] *)

(** With no current context the scope runs the body and nothing else. *)
Lemma hijack_context_config_pass_through (kwargs : config_kwargs)
    (body : M ZeroContextMgr unit) (mgr : ZeroContextMgr) :
  current_context mgr = None ->
  hijack_context_config kwargs body mgr = body mgr.
Proof. unfold hijack_context_config. intros ->. reflexivity. Qed.

(** A body that returns finds the override in place and has the original
    configuration put back on the context it left current. *)
Lemma hijack_context_config_restores_on_return (kwargs : config_kwargs)
    (body : M ZeroContextMgr unit) (ctx ctx' : ZeroInitContext)
    (new_config : ZeroContextConfig) :
  ZeroContextConfig_of_kwargs kwargs = Ok new_config ->
  body {| current_context := Some (with_config new_config ctx) |}
  = ({| current_context := Some ctx' |}, Ok tt) ->
  hijack_context_config kwargs body {| current_context := Some ctx |}
  = ({| current_context := Some (with_config (config ctx) ctx') |}, Ok tt).
Proof.
  intros Hcfg Hbody. unfold hijack_context_config. cbn. rewrite Hcfg, Hbody. reflexivity.
Qed.

(** A body that raises leaves the scope with the state it left: the
    generator is not resumed past its [yield]. *)
Lemma hijack_context_config_body_raises (kwargs : config_kwargs)
    (body : M ZeroContextMgr unit) (ctx : ZeroInitContext) (mgr' : ZeroContextMgr)
    (new_config : ZeroContextConfig) (e : exn) :
  ZeroContextConfig_of_kwargs kwargs = Ok new_config ->
  body {| current_context := Some (with_config new_config ctx) |} = (mgr', Raise e) ->
  hijack_context_config kwargs body {| current_context := Some ctx |} = (mgr', Raise e).
Proof.
  intros Hcfg Hbody. unfold hijack_context_config. cbn. rewrite Hcfg, Hbody. reflexivity.
Qed.

(** C1, at a body that raises: with a current context configured
    replicated and sharded, the overrides of
    [no_shard_zero_context(is_replicated=False)] and a body that raises, the
    scope ends with the exception and the current context still holds the
    override, not its original configuration. *)
Theorem hijack_context_config_keeps_override_when_body_raises :
  let mgr := {| current_context := Some sample_context |} in
  let out := hijack_context_config no_shard_kwargs (raise (UserError 0)) mgr in
  snd out = Raise (UserError 0)
  /\ config <$> current_context (fst out)
     = Some {| target_device := cuda0; is_replicated := false; shard_param := false |}
  /\ config <$> current_context (fst out) <> Some (config sample_context).
Proof.
  cbn. split_and!; try reflexivity. intros H. discriminate H.
Qed.

(** ** [InsertPostInitMethodToModuleSubClasses] *)

(** Classes that exist at entry and have a single path to [nn.Module] get
    their constructors back, also when the body raises, and the exit
    callback then restores the generator states. *)
Lemma linear_hierarchy_restored_when_body_raises :
  let out := zero_init_scope sample_runtime (raise (UserError 0))
               (sample_state linear_hierarchy) in
  snd out = Raise (UserError 0)
  /\ getattr_init (fst out) 1 = defined_init 1
  /\ Module_init_subclass (fst out) = object_init_subclass
  /\ cpu_rng (globals (fst out)) = [Byte.x0a]
  /\ cuda_rng (globals (fst out)) = [Byte.x0b].
Proof. vm_compute. split_and!; reflexivity. Qed.

(** C2, where it fails.  (1) A class [MyLinear(nn.Linear)] with its own
    [__init__], declared inside the scope, leaves the scope with the
    original constructor of [nn.Linear] in place of its own.  (2) A class
    that exists at entry and is reached from [nn.Module] along two paths
    ([D(B, C)]) leaves the scope with its constructor still wrapped, so
    constructing it afterwards runs the hook.  In both runs the scope ends
    normally. *)
Theorem exit_does_not_restore_every_constructor :
  (let declared_outside :=
     declare_class [1%nat] [1; 0]%nat true (sample_state linear_hierarchy) in
   let out :=
     zero_init_scope sample_runtime
       (let* _ := declare_class [1%nat] [1; 0]%nat true in ret tt)
       (sample_state linear_hierarchy) in
   snd declared_outside = Ok 2%nat
   /\ getattr_init (fst declared_outside) 2 = defined_init 2
   /\ snd out = Ok tt
   /\ getattr_init (fst out) 2 = defined_init 1)
  /\ (let before := sample_state diamond_hierarchy in
      let out := zero_init_scope sample_runtime (ret tt) before in
      getattr_init before 4 = defined_init 4
      /\ snd out = Ok tt
      /\ getattr_init (fst out) 4 = wrapper (defined_init 4)
      /\ runs_post_init (getattr_init (fst out) 4) = true).
Proof. vm_compute. split_and!; reflexivity. Qed.

(** ** The properties at the sample inputs *)

Lemma _post_init_method_idempotent_witness :
  param_list (self (sample_state linear_hierarchy)) = Some []
  /\ exists s1,
       _post_init_method sample_runtime sample_linear (sample_state linear_hierarchy)
       = (s1, Ok tt)
       /\ (forall p, p ∈ parameters sample_linear -> wrapped s1 p)
       /\ _post_init_method sample_runtime sample_linear s1 = (s1, Ok tt).
Proof.
  split; [reflexivity|].
  apply (_post_init_method_idempotent sample_runtime (sample_state linear_hierarchy)
           sample_linear []).
  reflexivity.
Defined.

Lemma model_numel_tensor_sums_leaf_parameters_witness :
  exists s',
    for_each [sample_linear; sample_linear] (_post_init_method sample_runtime)
      (sample_state linear_hierarchy) = (s', Ok tt)
    /\ model_numel_tensor (self s') = 16.
Proof.
  destruct (model_numel_tensor_sums_leaf_parameters sample_runtime
              (sample_state linear_hierarchy) [sample_linear; sample_linear] [])
    as (s' & Hrun & Hcount & _).
  - reflexivity.
  - reflexivity.
  - intros p Hp. change (leaf_parameters [sample_linear; sample_linear])
      with [0%nat; 1%nat] in Hp.
    apply elem_of_cons in Hp as [->|Hp]; [vm_compute; discriminate|].
    apply elem_of_cons in Hp as [->|Hp]; [vm_compute; discriminate|].
    inversion Hp.
  - replace (sumZ _ _) with 16 by (vm_compute; reflexivity).
    unfold int64_range. lia.
  - exists s'. split; [exact Hrun|]. rewrite Hcount. vm_compute. reflexivity.
Defined.

Lemma _post_context_exec_broadcasts_and_releases_witness :
  trace (fst (_post_context_exec sample_runtime hooked_state))
  = [ RemoveTorchPayload 0;
      Broadcast 1 {| torch.shape := [4]; torch.dtype_of := torch.float16;
                     torch.device_of := cuda0 |} 0 0;
      RemoveTorchPayload 1 ].
Proof.
  destruct (_post_context_exec_broadcasts_and_releases sample_runtime hooked_state
              [0%nat; 1%nat] 0 [1]) as [Htrace _].
  - vm_compute. reflexivity.
  - reflexivity.
  - intros p Hp.
    apply elem_of_cons in Hp as [->|Hp]; [split; [vm_compute; reflexivity|vm_compute; eauto]|].
    apply elem_of_cons in Hp as [->|Hp]; [split; [vm_compute; reflexivity|vm_compute; eauto]|].
    inversion Hp.
  - rewrite Htrace. vm_compute. reflexivity.
Defined.

Lemma scope_restores_rng_and_fan_routine_witness :
  let s := sample_state linear_hierarchy in
  let s1 := fst (_pre_context_exec sample_runtime s) in
  let s2 := fst (_post_init_method sample_runtime sample_linear s1) in
  let s3 := fst (_post_context_exec sample_runtime s2) in
  cpu_rng (globals s1) = [Byte.x01]
  /\ cpu_rng (globals s3) = [Byte.x0a]
  /\ cuda_rng (globals s3) = [Byte.x0b]
  /\ _calculate_fan_in_and_fan_out (globals s3) = fan_in_fan_out_of_tensor.
Proof.
  intros s s1 s2 s3. split; [reflexivity|].
  apply (scope_restores_rng_and_fan_routine sample_runtime s s1 s2 s3).
  - reflexivity.
  - reflexivity.
  - reflexivity.
  - reflexivity.
  - vm_compute. reflexivity.
Defined.

(** * Further properties of the code *)

(** ** The context manager and its no-shard scopes *)

(** X1: [no_shard_zero_context] never trips a configuration assertion: for
    either value of [is_replicated] and any current device, with a context
    current the body runs on that context holding the configuration
    (cuda:current, [is_replicated], not sharded); and when the decorated
    function returns - whatever value - the decorator returns [None] with the
    original configuration back on the context the function left current. *)
Theorem no_shard_zero_decrator_runs_unsharded_and_restores :
  forall (A : Type) (rt : Runtime) (is_replicated_ : bool) (init_func : M ZeroContextMgr A)
         (ctx ctx' : ZeroInitContext) (v : A),
    let no_shard :=
      {| target_device := {| torch.type := "cuda";
                             torch.index := Some (cuda_current_device rt) |};
         is_replicated := is_replicated_;
         shard_param := false |} in
    init_func {| current_context := Some (with_config no_shard ctx) |}
    = ({| current_context := Some ctx' |}, Ok v) ->
    no_shard_zero_decrator rt is_replicated_ init_func {| current_context := Some ctx |}
    = ({| current_context := Some (with_config (config ctx) ctx') |}, Ok tt).
Proof.
  intros A rt b init_func ctx ctx' v no_shard Hrun.
  unfold no_shard_zero_decrator, no_shard_zero_context, hijack_context_config.
  cbn [current_context]. unfold ZeroContextConfig_of_kwargs. cbn [kw_target_device
    kw_replicated kw_shard_param default from_option]. unfold id.
  assert (Hcfg : ZeroContextConfigM.__init__
                   {| torch.type := "cuda"; torch.index := Some (cuda_current_device rt) |}
                   b false = Ok no_shard) by (destruct b; reflexivity).
  rewrite Hcfg. unfold bind at 1. fold no_shard. rewrite Hrun. reflexivity.
Qed.

Lemma no_shard_zero_decrator_runs_unsharded_and_restores_witness :
  no_shard_zero_decrator sample_runtime false
    (gets (fun mgr => shard_param <$> (config <$> current_context mgr)))
    {| current_context := Some sample_context |}
  = ({| current_context := Some sample_context |}, Ok tt).
Proof.
  exact (no_shard_zero_decrator_runs_unsharded_and_restores _ sample_runtime false
           (gets (fun mgr => shard_param <$> (config <$> current_context mgr)))
           sample_context
           (with_config {| target_device := cuda0; is_replicated := false;
                           shard_param := false |} sample_context)
           (Some false) eq_refl).
Defined.

(** X2: overrides that [ZeroContextConfig] rejects - no [target_device],
    [shard_param] without [replicated], or replicated and unsharded on a
    device that is not cuda - make the hijack scope raise before its body
    runs and leave the current context as it was, whatever the body is. *)
Theorem hijack_context_config_rejects_invalid_overrides :
  forall (kwargs : config_kwargs) (body : M ZeroContextMgr unit) (ctx : ZeroInitContext),
    (kw_target_device kwargs = None
     \/ (kw_shard_param kwargs = Some true /\ kw_replicated kwargs = Some false)
     \/ (exists d, kw_target_device kwargs = Some d
                   /\ torch.type d <> "cuda"%string
                   /\ default true (kw_replicated kwargs) = true
                   /\ default false (kw_shard_param kwargs) = false)) ->
    exists e,
      hijack_context_config kwargs body {| current_context := Some ctx |}
      = ({| current_context := Some ctx |}, Raise e).
Proof.
  intros kwargs body ctx Hbad.
  assert (Hcfg : exists e, ZeroContextConfig_of_kwargs kwargs = Raise e).
  { unfold ZeroContextConfig_of_kwargs, ZeroContextConfigM.__init__, py_assert.
    destruct Hbad as [Hnone|[[Hs Hr]|(d & Hd & Hty & Hr & Hs)]].
    - rewrite Hnone. eauto.
    - rewrite Hs, Hr. destruct (kw_target_device kwargs); cbn; eauto.
    - rewrite Hd, Hr, Hs. cbn.
      destruct (String.eqb_spec (torch.type d) "cuda"); [contradiction|]. cbn. eauto. }
  destruct Hcfg as [e He]. exists e.
  unfold hijack_context_config. cbn [current_context]. rewrite He. reflexivity.
Qed.

Lemma hijack_context_config_rejects_invalid_overrides_witness :
  exists e,
    hijack_context_config
      {| kw_target_device := Some host; kw_replicated := None; kw_shard_param := None |}
      (modify (fun _ => {| current_context := None |}))
      {| current_context := Some sample_context |}
    = ({| current_context := Some sample_context |}, Raise e).
Proof.
  apply hijack_context_config_rejects_invalid_overrides.
  right. right. exists host. split_and!; [reflexivity|discriminate|reflexivity|reflexivity].
Defined.

(** X3: hijack scopes nest: with both sets of overrides accepted, an inner
    scope inside an outer one runs its body under the inner overrides, and
    when the body returns the context it left current carries the
    configuration that was there before the outer scope. *)
Theorem hijack_context_config_nests :
  forall (outer inner : config_kwargs) (body : M ZeroContextMgr unit)
         (ctx ctx' : ZeroInitContext) (outer_config inner_config : ZeroContextConfig),
    ZeroContextConfig_of_kwargs outer = Ok outer_config ->
    ZeroContextConfig_of_kwargs inner = Ok inner_config ->
    body {| current_context := Some (with_config inner_config ctx) |}
    = ({| current_context := Some ctx' |}, Ok tt) ->
    hijack_context_config outer (hijack_context_config inner body)
      {| current_context := Some ctx |}
    = ({| current_context := Some (with_config (config ctx) ctx') |}, Ok tt).
Proof.
  intros outer inner body ctx ctx' oc ic Ho Hi Hbody.
  unfold hijack_context_config. cbn [current_context]. rewrite Ho.
  cbn [current_context]. rewrite Hi.
  change (with_config ic (with_config oc ctx)) with (with_config ic ctx).
  rewrite Hbody. reflexivity.
Qed.

Lemma hijack_context_config_nests_witness :
  hijack_context_config no_shard_kwargs
    (hijack_context_config
       {| kw_target_device := Some host; kw_replicated := Some true;
          kw_shard_param := Some true |}
       (ret tt))
    {| current_context := Some sample_context |}
  = ({| current_context := Some sample_context |}, Ok tt).
Proof.
  exact (hijack_context_config_nests no_shard_kwargs
           {| kw_target_device := Some host; kw_replicated := Some true;
              kw_shard_param := Some true |}
           (ret tt) sample_context
           (with_config {| target_device := host; is_replicated := true;
                           shard_param := true |} sample_context)
           {| target_device := cuda0; is_replicated := false; shard_param := false |}
           {| target_device := host; is_replicated := true; shard_param := true |}
           eq_refl eq_refl eq_refl).
Defined.

(** X4: constructing a [ZeroInitContext] always asks for a replicated
    configuration: it raises, leaving the manager's slot alone, exactly when
    [shard_param] is off and the target device is not cuda; otherwise it
    becomes the current context - replacing whichever context was current -
    with an empty [param_list], the counter it was handed, and the
    configuration (target_device, replicated, shard_param). *)
Theorem ZeroInitContext_init_sets_current_context :
  forall (d : torch.device) (strategy : ShardedTensor -> ShardedTensor) (seed_ : Z)
         (shard : bool) (counter : Z) (group : nat) (mgr : ZeroContextMgr),
    let out := ZeroInitContextM.__init__ d strategy seed_ shard counter group mgr in
    if negb shard && negb (String.eqb (torch.type d) "cuda")
    then fst out = mgr /\ exists msg, snd out = Raise (AssertionError msg)
    else exists self_,
           snd out = Ok self_
           /\ current_context (fst out) = Some self_
           /\ param_list self_ = Some []
           /\ model_numel_tensor self_ = counter
           /\ config self_ = {| target_device := d; is_replicated := true;
                                shard_param := shard |}
           /\ nn_fanin_fanout self_ = None.
Proof.
  intros d strategy seed_ shard counter group mgr out. subst out.
  unfold ZeroInitContextM.__init__, ZeroContextConfigM.__init__, py_assert,
    bind, lift_result, modify, ret.
  destruct shard; cbn.
  - eexists. split_and!; reflexivity.
  - destruct (String.eqb (torch.type d) "cuda"); cbn.
    + eexists. split_and!; reflexivity.
    + split; [reflexivity|eauto].
Qed.

(** ** The hook, parameter by parameter *)

Lemma adapted_wrapped (c : ZeroInitContext) (p : nn_Parameter) :
  hasattr_colo_attr (adapted c p) = true.
Proof. reflexivity. Qed.

Lemma adapted_same_wrapping (c c' : ZeroInitContext) (p : nn_Parameter) :
  same_wrapping c c' -> adapted c' p = adapted c p.
Proof.
  intros [Hcfg Hst]. unfold adapted, wrap_entity. now rewrite Hcfg, Hst.
Qed.

Lemma for_each_app {S A} (l1 l2 : list A) (body : A -> M S unit) (s : S) :
  for_each (l1 ++ l2) body s =
  match for_each l1 body s with
  | (s1, Ok _) => for_each l2 body s1
  | (s1, Raise e) => (s1, Raise e)
  end.
Proof.
  revert s. induction l1 as [|x l1 IH]; intros s; [reflexivity|].
  cbn [app]. rewrite !for_each_cons.
  destruct (body x s) as [s1 [[]|e]]; [apply IH|reflexivity].
Qed.

(** One step on an unwrapped parameter, in full. *)
Lemma adapt_param_fresh_exact (s : State) (param : nat) :
  ~ wrapped s param ->
  adapt_param param s =
  (let s1 := with_params (<[param := adapted (self s) (params s !!! param)]> (params s))
               (with_self (with_model_numel_tensor
                             (wrap_int64 (model_numel_tensor (self s)
                                          + torch.numel (data (params s !!! param))))
                             (self s)) s) in
   match param_list (self s) with
   | Some l => (with_self (with_param_list (Some (l ++ [param])) (self s1)) s1, Ok tt)
   | None => (s1, Raise (AttributeError "param_list"))
   end).
Proof.
  unfold wrapped. intros Hfresh.
  destruct (hasattr_colo_attr (params s !!! param)) eqn:Hattr; [congruence|].
  cbv [adapt_param bind gets modify raise ret]. rewrite Hattr.
  cbn [self with_self config with_model_numel_tensor shard_strategy param_list].
  destruct (params s !!! param) as [d [g|] r c] eqn:Hp;
    destruct (shard_param (config (self s))) eqn:Hshard;
    destruct (param_list (self s)) as [l|] eqn:Hl;
    unfold adapted, wrap_entity; cbn; rewrite ?Hshard, ?Hl; reflexivity.
Qed.

#[local] Instance wrapped_dec (s : State) (param : nat) : Decision (wrapped s param).
Proof. unfold wrapped. apply _. Defined.

Lemma same_wrapping_refl (c : ZeroInitContext) : same_wrapping c c.
Proof. split; reflexivity. Qed.

Lemma same_wrapping_trans (c1 c2 c3 : ZeroInitContext) :
  same_wrapping c1 c2 -> same_wrapping c2 c3 -> same_wrapping c1 c3.
Proof. intros [? ?] [? ?]. split; congruence. Qed.

(** The loop over a module's parameters, read parameter by parameter. *)
Lemma for_each_adapt_param_lookup (ps : list nat) :
  forall (s : State) (l : list nat),
    param_list (self s) = Some l ->
    exists s' added,
      for_each ps adapt_param s = (s', Ok tt)
      /\ param_list (self s') = Some (l ++ added)
      /\ NoDup added
      /\ (forall x, x ∈ added <-> x ∈ ps /\ ~ wrapped s x)
      /\ added `sublist_of` ps
      /\ same_wrapping (self s) (self s')
      /\ module_buffers s' = module_buffers s
      /\ (forall x, params s' !!! x
                    = if decide (x ∈ ps /\ ~ wrapped s x)
                      then adapted (self s) (params s !!! x)
                      else params s !!! x).
Proof.
  induction ps as [|p ps IH]; intros s l Hl.
  - exists s, []. rewrite app_nil_r. split_and!; auto using same_wrapping_refl.
    + constructor.
    + intros x. split; [intros H; inversion H|intros [H _]; inversion H].
  - rewrite for_each_cons. destruct (decide (wrapped s p)) as [Hw|Hfresh].
    + rewrite (adapt_param_wrapped s p Hw).
      destruct (IH s l Hl) as (s' & added & Hrun & Hl' & Hnd & Hin & Hsub & Hsame & Hbuf & Hlook).
      exists s', added. split_and!; auto.
      * intros x. rewrite Hin, elem_of_cons. split; [tauto|].
        intros [[->|Hx] Hnw]; [contradiction|tauto].
      * now apply sublist_cons.
      * intros x. rewrite Hlook.
        destruct (decide (x ∈ ps /\ ~ wrapped s x)) as [[Hx Hnw]|Hn];
          destruct (decide (x ∈ p :: ps /\ ~ wrapped s x)) as [[Hx' Hnw']|Hn'];
          try reflexivity.
        -- exfalso. apply Hn'. split; [now constructor|assumption].
        -- exfalso. apply elem_of_cons in Hx' as [->|Hx']; [contradiction|].
           apply Hn. now split.
    + rewrite (adapt_param_fresh_exact s p Hfresh), Hl. cbn zeta.
      remember (with_self _ (with_params _ _)) as s1 eqn:Es1.
      assert (Hl1 : param_list (self s1) = Some (l ++ [p])) by (subst s1; reflexivity).
      assert (Hsame1 : same_wrapping (self s) (self s1)) by (subst s1; split; reflexivity).
      assert (Hbuf1 : module_buffers s1 = module_buffers s) by (subst s1; reflexivity).
      assert (Hs1 : forall x, params s1 !!! x
                              = if decide (x = p) then adapted (self s) (params s !!! p)
                                else params s !!! x).
      { intros x. subst s1. cbn. destruct (decide (x = p)) as [->|Hne].
        - apply lookup_total_insert_eq.
        - now apply lookup_total_insert_ne. }
      assert (Hw1 : forall x, wrapped s1 x <-> x = p \/ wrapped s x).
      { intros x. unfold wrapped. rewrite Hs1. destruct (decide (x = p)) as [->|Hne].
        - rewrite adapted_wrapped. tauto.
        - split; [tauto|]. intros [?|?]; [contradiction|assumption]. }
      clear Es1.
      destruct (IH s1 (l ++ [p]) Hl1)
        as (s' & added & Hrun & Hl' & Hnd & Hin & Hsub & Hsame & Hbuf & Hlook).
      exists s', (p :: added). split_and!; auto.
      * rewrite Hl', <- app_assoc. reflexivity.
      * constructor; [|exact Hnd]. rewrite Hin, Hw1. tauto.
      * intros x. rewrite !elem_of_cons, Hin, Hw1. split.
        -- intros [->|[Hx Hnw]]; [tauto|tauto].
        -- intros [[->|Hx] Hnw]; [tauto|]. destruct (decide (x = p)); [tauto|tauto].
      * now apply sublist_skip.
      * eapply same_wrapping_trans; eauto.
      * congruence.
      * intros x. rewrite Hlook, Hs1. rewrite (adapted_same_wrapping _ _ _ Hsame1).
        destruct (decide (x = p)) as [->|Hne].
        -- destruct (decide (p ∈ ps /\ ~ wrapped s1 p)) as [[_ Hnw]|_].
           ++ exfalso. apply Hnw, Hw1. now left.
           ++ destruct (decide (p ∈ p :: ps /\ ~ wrapped s p)) as [_|Hn]; [reflexivity|].
              exfalso. apply Hn. split; [constructor|assumption].
        -- destruct (decide (x ∈ ps /\ ~ wrapped s1 x)) as [[Hx Hnw]|Hn];
             destruct (decide (x ∈ p :: ps /\ ~ wrapped s x)) as [[Hx' Hnw']|Hn'];
             try reflexivity.
           ++ exfalso. apply Hn'. split; [now constructor|]. rewrite Hw1 in Hnw. tauto.
           ++ exfalso. apply Hn. apply elem_of_cons in Hx' as [->|Hx']; [contradiction|].
              split; [assumption|]. rewrite Hw1. tauto.
Qed.

Lemma for_each_cast_buffer_lookup (rt : Runtime) (bs : list nat) :
  forall s,
    exists s',
      for_each bs (cast_buffer rt) s = (s', Ok tt)
      /\ self s' = self s /\ params s' = params s
      /\ (forall b, module_buffers s' !!! b
                    = if decide (b ∈ bs) then placed rt (module_buffers s !!! b)
                      else module_buffers s !!! b).
Proof.
  induction bs as [|b0 bs IH]; intros s.
  - exists s. split_and!; auto.
  - rewrite for_each_cons.
    destruct (cast_buffer rt b0 s) as [s1 r1] eqn:Hb.
    destruct (cast_buffer_frame _ _ _ _ _ Hb) as (_ & Hself & Hparams & ->).
    assert (Hs1 : forall b, module_buffers s1 !!! b
                            = if decide (b = b0) then placed rt (module_buffers s !!! b0)
                              else module_buffers s !!! b).
    { intros b. unfold cast_buffer, modify in Hb. inversion Hb; subst s1. cbn.
      fold (placed rt (module_buffers s !!! b0)).
      destruct (decide (b = b0)) as [->|Hne].
      - apply lookup_total_insert_eq.
      - now apply lookup_total_insert_ne. }
    destruct (IH s1) as (s' & Hrun & Hself' & Hparams' & Hlook).
    exists s'. split_and!; try congruence.
    intros b. rewrite Hlook, Hs1.
    destruct (decide (b = b0)) as [->|Hne].
    + destruct (decide (b0 ∈ b0 :: bs)) as [_|Hn]; [|exfalso; apply Hn; constructor].
      destruct (decide (b0 ∈ bs)); [apply placed_idempotent|reflexivity].
    + destruct (decide (b ∈ bs)) as [Hin|Hnin];
        destruct (decide (b ∈ b0 :: bs)) as [Hin'|Hnin']; try reflexivity.
      * exfalso. apply Hnin'. now constructor.
      * exfalso. apply elem_of_cons in Hin' as [->|Hin']; contradiction.
Qed.

(** The hook on one module, read store entry by store entry. *)
Lemma _post_init_method_lookup (rt : Runtime) (module : nn_Module) (s : State) (l : list nat) :
  param_list (self s) = Some l ->
  exists s' added,
    _post_init_method rt module s = (s', Ok tt)
    /\ param_list (self s') = Some (l ++ added)
    /\ NoDup added
    /\ (forall x, x ∈ added <-> x ∈ parameters module /\ ~ wrapped s x)
    /\ added `sublist_of` parameters module
    /\ same_wrapping (self s) (self s')
    /\ (forall x, params s' !!! x
                  = if decide (x ∈ parameters module /\ ~ wrapped s x)
                    then adapted (self s) (params s !!! x)
                    else params s !!! x)
    /\ (forall b, module_buffers s' !!! b
                  = if decide (b ∈ buffers module)
                    then placed rt (module_buffers s !!! b)
                    else module_buffers s !!! b).
Proof.
  intros Hl.
  destruct (for_each_adapt_param_lookup (parameters module) s l Hl)
    as (s1 & added & Hrun & Hl1 & Hnd & Hin & Hsub & Hsame & Hbuf & Hlook).
  destruct (for_each_cast_buffer_lookup rt (buffers module) s1)
    as (s2 & Hrun2 & Hself & Hparams & Hblook).
  exists s2, added. unfold _post_init_method, bind. rewrite Hrun, Hrun2.
  rewrite Hself, Hparams. split_and!; auto.
  intros b. rewrite Hblook, Hbuf. reflexivity.
Qed.

Lemma shape_of_moved (t : torch.Tensor) (d : torch.device) :
  torch.shape (torch.to (half_fn t) d) = torch.shape t
  /\ torch.numel (torch.to (half_fn t) d) = torch.numel t
  /\ torch.device_of (torch.to (half_fn t) d) = d
  /\ torch.dtype_of (torch.to (half_fn t) d)
     = if torch.is_floating_point t then torch.float16 else torch.dtype_of t.
Proof.
  unfold half_fn, torch.numel. destruct (torch.is_floating_point t); split_and!; reflexivity.
Qed.

(** X5: a parameter the hook meets unwrapped comes out marked with the
    configuration's [is_replicated], its gradient (if any) cast and moved
    like its payload, and carrying a [colo_attr] whose entity was built from
    the payload after the half cast and the move to [target_device] and then,
    if [shard_param] is set, handed to the strategy; [param.data] is that
    entity's payload.  Without sharding the payload keeps its shape, sits on
    [target_device], is float16 exactly if it was floating, and the entity
    records the original shape and element count but the dtype after the
    cast. *)
Theorem _post_init_method_wraps_fresh_parameter :
  forall (rt : Runtime) (s : State) (module : nn_Module) (l : list nat) (p : nat),
    param_list (self s) = Some l ->
    p ∈ parameters module ->
    ~ wrapped s p ->
    let cfg := config (self s) in
    let before := params s !!! p in
    let after := params (fst (_post_init_method rt module s)) !!! p in
    let moved := torch.to (half_fn (data before)) (target_device cfg) in
    param_is_replicated after = Some (is_replicated cfg)
    /\ grad after = (fun g => torch.to (half_fn g) (target_device cfg)) <$> grad before
    /\ exists attr,
         colo_attr after = Some attr
         /\ data after = _payload (sharded_data_tensor attr)
         /\ sharded_data_tensor attr
            = (if shard_param cfg
               then shard_strategy (self s) (ShardedTensorM.__init__ moved HOLD)
               else ShardedTensorM.__init__ moved HOLD)
         /\ (shard_param cfg = false ->
             data after = moved
             /\ torch.shape (data after) = torch.shape (data before)
             /\ torch.device_of (data after) = target_device cfg
             /\ torch.dtype_of (data after)
                = (if torch.is_floating_point (data before) then torch.float16
                   else torch.dtype_of (data before))
             /\ ShardedTensorM.origin_shape (sharded_data_tensor attr)
                = torch.shape (data before)
             /\ ShardedTensorM.origin_numel (sharded_data_tensor attr)
                = torch.numel (data before)
             /\ _origin_dtype (sharded_data_tensor attr) = torch.dtype_of (data after)
             /\ ShardedTensorM.is_sharded (sharded_data_tensor attr) = false).
Proof.
  intros rt s module l p Hl Hp Hfresh cfg before after moved.
  destruct (_post_init_method_lookup rt module s l Hl)
    as (s' & added & Hrun & _ & _ & _ & _ & _ & Hlook & _).
  subst after. rewrite Hrun. cbn [fst]. rewrite Hlook.
  destruct (decide (p ∈ parameters module /\ ~ wrapped s p)) as [_|Hn];
    [|exfalso; apply Hn; now split].
  fold before. unfold adapted, wrap_entity. fold cfg. fold moved. cbn.
  split_and!; try reflexivity.
  eexists. split_and!; try reflexivity.
  intros Hshard. rewrite Hshard. cbn.
  destruct (shape_of_moved (data before) (target_device cfg)) as (Hs & Hn & Hd & Ht).
  fold moved in Hs, Hn, Hd, Ht. split_and!; auto.
Qed.

Lemma _post_init_method_wraps_fresh_parameter_witness :
  let after := params (fst (_post_init_method sample_runtime sample_linear
                              (sample_state linear_hierarchy))) !!! 0%nat in
  param_is_replicated after = Some true /\ grad after = None.
Proof.
  destruct (_post_init_method_wraps_fresh_parameter sample_runtime
              (sample_state linear_hierarchy) sample_linear [] 0%nat)
    as (Hrep & Hgrad & _).
  - reflexivity.
  - constructor.
  - vm_compute. discriminate.
  - split; [exact Hrep|exact Hgrad].
Defined.

(** X6: the hook is not recursive and never casts twice: a parameter the
    module does not own directly, or one that already carries [colo_attr],
    is left exactly as it was. *)
Theorem _post_init_method_leaves_other_parameters :
  forall (rt : Runtime) (s : State) (module : nn_Module) (l : list nat) (x : nat),
    param_list (self s) = Some l ->
    x ∉ parameters module \/ wrapped s x ->
    params (fst (_post_init_method rt module s)) !!! x = params s !!! x.
Proof.
  intros rt s module l x Hl Hx.
  destruct (_post_init_method_lookup rt module s l Hl)
    as (s' & added & Hrun & _ & _ & _ & _ & _ & Hlook & _).
  rewrite Hrun. cbn [fst]. rewrite Hlook.
  destruct (decide (x ∈ parameters module /\ ~ wrapped s x)) as [[Hin Hnw]|_];
    [|reflexivity].
  destruct Hx; contradiction.
Qed.

Lemma _post_init_method_leaves_other_parameters_witness :
  params (fst (_post_init_method sample_runtime
                 {| parameters := [0%nat]; buffers := [] |}
                 (sample_state linear_hierarchy))) !!! 1%nat
  = sample_bias.
Proof.
  rewrite (_post_init_method_leaves_other_parameters sample_runtime
             (sample_state linear_hierarchy) {| parameters := [0%nat]; buffers := [] |}
             [] 1%nat).
  - reflexivity.
  - reflexivity.
  - left. cbn. intros H. apply elem_of_cons in H as [H|H]; [discriminate|inversion H].
Defined.

(** X7: the hook only appends to [param_list]: what it adds are the
    module's parameters that were not wrapped yet, each once, in the order
    the module lists them; so a list without repetitions whose members are
    all wrapped stays without repetitions. *)
Theorem _post_init_method_appends_fresh_parameters_once :
  forall (rt : Runtime) (s : State) (module : nn_Module) (l : list nat),
    param_list (self s) = Some l ->
    exists added,
      param_list (self (fst (_post_init_method rt module s))) = Some (l ++ added)
      /\ NoDup added
      /\ (forall x, x ∈ added <-> x ∈ parameters module /\ ~ wrapped s x)
      /\ added `sublist_of` parameters module
      /\ ((forall x, x ∈ l -> wrapped s x) -> NoDup l -> NoDup (l ++ added)).
Proof.
  intros rt s module l Hl.
  destruct (_post_init_method_lookup rt module s l Hl)
    as (s' & added & Hrun & Hl' & Hnd & Hin & Hsub & _).
  exists added. rewrite Hrun. cbn [fst]. split_and!; auto.
  intros Hlisted Hndl. apply NoDup_app. split_and!; auto.
  intros x Hx Hx'. apply Hin in Hx' as [_ Hnw]. apply Hnw, Hlisted, Hx.
Qed.

Lemma _post_init_method_appends_fresh_parameters_once_witness :
  param_list (self (fst (_post_init_method sample_runtime
                           {| parameters := [1; 0; 1]%nat; buffers := [] |}
                           (sample_state linear_hierarchy))))
  = Some [1; 0]%nat.
Proof.
  destruct (_post_init_method_appends_fresh_parameters_once sample_runtime
              (sample_state linear_hierarchy)
              {| parameters := [1; 0; 1]%nat; buffers := [] |} [] eq_refl)
    as (added & Hl & _).
  vm_compute. reflexivity.
Defined.

(** X8: whatever [target_device] the configuration names, every buffer the
    module owns directly ends on the current cuda device with its shape
    unchanged, and the buffers of other modules are not touched. *)
Theorem _post_init_method_moves_buffers_to_current_cuda_device :
  forall (rt : Runtime) (s : State) (module : nn_Module) (l : list nat) (b : nat),
    param_list (self s) = Some l ->
    let before := module_buffers s !!! b in
    let after := module_buffers (fst (_post_init_method rt module s)) !!! b in
    (b ∈ buffers module ->
     torch.device_of after
     = {| torch.type := "cuda"; torch.index := Some (cuda_current_device rt) |}
     /\ torch.shape after = torch.shape before)
    /\ (b ∉ buffers module -> after = before).
Proof.
  intros rt s module l b Hl before after.
  destruct (_post_init_method_lookup rt module s l Hl)
    as (s' & added & Hrun & _ & _ & _ & _ & _ & _ & Hblook).
  subst after. rewrite Hrun. cbn [fst]. rewrite Hblook. fold before.
  destruct (decide (b ∈ buffers module)) as [Hin|Hnin].
  - split; [|contradiction]. intros _.
    unfold placed, cast_tensor_to_fp16.
    destruct (torch.is_floating_point _); split; reflexivity.
  - split; [contradiction|reflexivity].
Qed.

Lemma _post_init_method_moves_buffers_to_current_cuda_device_witness :
  torch.device_of (module_buffers (fst (_post_init_method sample_runtime sample_linear
                                          (sample_state linear_hierarchy))) !!! 0%nat)
  = cuda0.
Proof.
  destruct (_post_init_method_moves_buffers_to_current_cuda_device sample_runtime
              (sample_state linear_hierarchy) sample_linear [] 0%nat eq_refl)
    as [Hin _].
  destruct Hin as [Hdev _]; [constructor|]. exact Hdev.
Defined.

(** X9: once [param_list] has been deleted (after the scope), the hook
    raises [AttributeError] at the first parameter it finds unwrapped - after
    it has added that parameter's element count to the counter and wrapped
    it; the parameters after it and the buffers are not reached. *)
Theorem _post_init_method_without_param_list :
  forall (rt : Runtime) (s : State) (module : nn_Module) (before_ after_ : list nat) (p : nat),
    param_list (self s) = None ->
    parameters module = before_ ++ p :: after_ ->
    (forall x, x ∈ before_ -> wrapped s x) ->
    ~ wrapped s p ->
    _post_init_method rt module s
    = (with_params (<[p := adapted (self s) (params s !!! p)]> (params s))
         (with_self (with_model_numel_tensor
                       (wrap_int64 (model_numel_tensor (self s)
                                    + torch.numel (data (params s !!! p))))
                       (self s)) s),
       Raise (AttributeError "param_list")).
Proof.
  intros rt s module pre post p Hnone Hps Hpre Hfresh.
  unfold _post_init_method, bind. rewrite Hps, for_each_app.
  rewrite (for_each_adapt_param_wrapped pre s Hpre), for_each_cons.
  rewrite (adapt_param_fresh_exact s p Hfresh), Hnone. reflexivity.
Qed.

Lemma _post_init_method_without_param_list_witness :
  snd (_post_init_method sample_runtime sample_linear
         (with_self (with_param_list None sample_context) (sample_state linear_hierarchy)))
  = Raise (AttributeError "param_list").
Proof.
  rewrite (_post_init_method_without_param_list sample_runtime _ sample_linear
             [] [1%nat] 0%nat).
  - reflexivity.
  - reflexivity.
  - reflexivity.
  - intros x Hx. inversion Hx.
  - vm_compute. discriminate.
Defined.

(** X10: however many modules the hook is fired on, and also when it
    raises, it leaves alone the class table, the generator states and the fan
    routine, the trace of collective calls, and the context's configuration,
    seed and snapshots. *)
Theorem _post_init_method_touches_only_stores_list_and_counter :
  forall (rt : Runtime) (modules : list nn_Module) (s s' : State) (r : result unit),
    for_each modules (_post_init_method rt) s = (s', r) ->
    classes s' = classes s
    /\ globals s' = globals s
    /\ trace s' = trace s
    /\ config (self s') = config (self s)
    /\ seed (self s') = seed (self s)
    /\ nn_fanin_fanout (self s') = nn_fanin_fanout (self s)
    /\ cpu_rng_state (self s') = cpu_rng_state (self s)
    /\ cuda_rng_state (self s') = cuda_rng_state (self s).
Proof.
  intros rt modules s s' r Hrun.
  assert (Hframe : hook_frame s s').
  { eapply (for_each_preserves hook_frame);
      eauto using hook_frame_refl, hook_frame_trans, _post_init_method_frame. }
  unfold hook_frame in Hframe.
  repeat match goal with H : _ /\ _ |- _ => destruct H end.
  split_and!; assumption.
Qed.

Lemma _post_init_method_touches_only_stores_list_and_counter_witness :
  let s := sample_state linear_hierarchy in
  let s' := fst (for_each [sample_linear] (_post_init_method sample_runtime) s) in
  globals s' = globals s /\ config (self s') = config (self s).
Proof.
  intros s s'.
  destruct (_post_init_method_touches_only_stores_list_and_counter sample_runtime
              [sample_linear] s s' (Ok tt)) as (_ & Hg & _ & Hc & _).
  - vm_compute. reflexivity.
  - split; [exact Hg|exact Hc].
Defined.

(** The hook fired on a sequence of modules, read parameter by parameter. *)
Lemma for_each_post_init_method_lookup (rt : Runtime) (modules : list nn_Module) :
  forall (s : State) (l : list nat),
    param_list (self s) = Some l ->
    exists s',
      for_each modules (_post_init_method rt) s = (s', Ok tt)
      /\ same_wrapping (self s) (self s')
      /\ (forall x, params s' !!! x
                    = if decide (x ∈ concat (map parameters modules) /\ ~ wrapped s x)
                      then adapted (self s) (params s !!! x)
                      else params s !!! x).
Proof.
  induction modules as [|m modules IH]; intros s l Hl.
  - exists s. split_and!; auto using same_wrapping_refl.
  - rewrite for_each_cons.
    destruct (_post_init_method_lookup rt m s l Hl)
      as (s1 & added & Hrun & Hl1 & _ & _ & _ & Hsame1 & Hlook1 & _).
    rewrite Hrun.
    destruct (IH s1 (l ++ added) Hl1) as (s' & Hrun' & Hsame' & Hlook').
    exists s'. split_and!; auto.
    + eapply same_wrapping_trans; eauto.
    + intros x. rewrite Hlook', (adapted_same_wrapping _ _ _ Hsame1). cbn [map concat].
      assert (Hw1 : wrapped s1 x <-> (x ∈ parameters m /\ ~ wrapped s x) \/ wrapped s x).
      { unfold wrapped at 1. rewrite Hlook1.
        destruct (decide (x ∈ parameters m /\ ~ wrapped s x)) as [Hc|Hc].
        - rewrite adapted_wrapped. tauto.
        - fold (wrapped s x). tauto. }
      rewrite Hlook1.
      destruct (decide (x ∈ parameters m /\ ~ wrapped s x)) as [[Hx Hnw]|Hc].
      * destruct (decide (x ∈ concat (map parameters modules) /\ ~ wrapped s1 x))
          as [[_ Hnw1]|_]; [exfalso; apply Hnw1, Hw1; tauto|].
        destruct (decide (x ∈ parameters m ++ concat (map parameters modules)
                          /\ ~ wrapped s x)) as [_|Hn]; [reflexivity|].
        exfalso. apply Hn. split; [apply elem_of_app; now left|assumption].
      * destruct (decide (x ∈ concat (map parameters modules) /\ ~ wrapped s1 x))
          as [[Hx Hnw1]|Hn1];
          destruct (decide (x ∈ parameters m ++ concat (map parameters modules)
                            /\ ~ wrapped s x)) as [[Hx' Hnw']|Hn']; try reflexivity.
        -- exfalso. apply Hn'. split; [apply elem_of_app; now right|].
           intros Hw. apply Hnw1, Hw1. now right.
        -- exfalso. apply elem_of_app in Hx' as [Hx'|Hx']; [apply Hc; now split|].
           apply Hn1. split; [assumption|]. rewrite Hw1. tauto.
Qed.

(** The counter after the hooks, from a zero start. *)
Lemma model_numel_after_hooks (rt : Runtime) (s s' : State) (modules : list nn_Module)
    (l : list nat) :
  param_list (self s) = Some l ->
  model_numel_tensor (self s) = 0 ->
  (forall p, p ∈ leaf_parameters modules -> ~ wrapped s p) ->
  int64_range (sumZ (fun p => torch.numel (data (params s !!! p)))
                 (leaf_parameters modules)) ->
  for_each modules (_post_init_method rt) s = (s', Ok tt) ->
  model_numel_tensor (self s')
  = sumZ (fun p => torch.numel (data (params s !!! p))) (leaf_parameters modules).
Proof.
  intros Hl Hzero Hfresh Hfits Hrun.
  destruct (for_each_post_init_method rt modules s l [] Hl)
    as (s2 & l' & Hrun2 & _ & Hcount & Hrange & _ & _).
  rewrite Hrun in Hrun2. inversion Hrun2; subst s2. clear Hrun2.
  assert (Hpending : pending_numel s (concat (map parameters modules) ++ [])
                     = sumZ (fun p => torch.numel (data (params s !!! p)))
                         (leaf_parameters modules)).
  { rewrite app_nil_r. unfold pending_numel, leaf_parameters.
    apply sumZ_ext. intros p Hp. unfold unwrapped_numel.
    destruct (hasattr_colo_attr (params s !!! p)) eqn:Hattr; [|reflexivity].
    exfalso. exact (Hfresh p Hp Hattr). }
  rewrite Hzero, Hpending in Hcount.
  unfold pending_numel in Hcount at 1. cbn [remove_dups sumZ fold_right] in Hcount.
  rewrite Z.add_0_r, Z.add_0_l in Hcount.
  rewrite (wrap_int64_small _ Hfits) in Hcount.
  rewrite wrap_int64_small in Hcount; [exact Hcount|].
  apply Hrange. rewrite Hzero. unfold int64_range. lia.
Qed.

(** X11: with a strategy that works on an entity through the entity's own
    operations, the counter agrees with the wrap metadata: after the hooks
    on a tree built in the scope, [model_numel_tensor] is the sum of the
    [origin_numel] recorded in the [colo_attr] of the leaf parameters, sharded
    or not. *)
Theorem model_numel_tensor_matches_recorded_origin_numel :
  forall (rt : Runtime) (s : State) (modules : list nn_Module) (l : list nat),
    param_list (self s) = Some l ->
    model_numel_tensor (self s) = 0 ->
    (forall p, p ∈ leaf_parameters modules -> ~ wrapped s p) ->
    int64_range (sumZ (fun p => torch.numel (data (params s !!! p)))
                   (leaf_parameters modules)) ->
    acts_through_operations (shard_strategy (self s)) ->
    let s' := fst (for_each modules (_post_init_method rt) s) in
    model_numel_tensor (self s')
    = sumZ (fun p => recorded_numel (params s' !!! p)) (leaf_parameters modules).
Proof.
  intros rt s modules l Hl Hzero Hfresh Hfits Hops s'.
  destruct (for_each_post_init_method_lookup rt modules s l Hl)
    as (s2 & Hrun & _ & Hlook).
  subst s'. rewrite Hrun. cbn [fst].
  rewrite (model_numel_after_hooks rt s s2 modules l Hl Hzero Hfresh Hfits Hrun).
  apply sumZ_ext. intros p Hp. rewrite Hlook.
  destruct (decide (p ∈ concat (map parameters modules) /\ ~ wrapped s p)) as [_|Hn].
  - unfold recorded_numel, adapted, wrap_entity. cbn [colo_attr sharded_data_tensor].
    destruct (shape_of_moved (data (params s !!! p)) (target_device (config (self s))))
      as (_ & Hnumel & _).
    destruct (shard_param (config (self s))).
    + destruct (Hops (ShardedTensorM.__init__
                        (torch.to (half_fn (data (params s !!! p)))
                           (target_device (config (self s)))) HOLD)) as [ops Hstrategy].
      rewrite Hstrategy. unfold ShardedTensorM.origin_numel.
      destruct (apply_ops_origin
                  (ShardedTensorM.__init__
                     (torch.to (half_fn (data (params s !!! p)))
                        (target_device (config (self s)))) HOLD) ops) as (_ & Hn & _).
      rewrite Hn. cbn. symmetry. exact Hnumel.
    + cbn. symmetry. exact Hnumel.
  - exfalso. apply Hn. split; [|now apply Hfresh].
    unfold leaf_parameters in Hp. now rewrite elem_of_remove_dups in Hp.
Qed.

Lemma model_numel_tensor_matches_recorded_origin_numel_witness :
  let s' := fst (for_each [sample_linear; sample_linear] (_post_init_method sample_runtime)
                   (sample_state linear_hierarchy)) in
  model_numel_tensor (self s')
  = sumZ (fun p => recorded_numel (params s' !!! p)) [0; 1]%nat.
Proof.
  apply (model_numel_tensor_matches_recorded_origin_numel sample_runtime
           (sample_state linear_hierarchy) [sample_linear; sample_linear] []).
  - reflexivity.
  - reflexivity.
  - intros p Hp. change (leaf_parameters [sample_linear; sample_linear])
      with [0%nat; 1%nat] in Hp.
    apply elem_of_cons in Hp as [->|Hp]; [vm_compute; discriminate|].
    apply elem_of_cons in Hp as [->|Hp]; [vm_compute; discriminate|].
    inversion Hp.
  - replace (sumZ _ _) with 16 by (vm_compute; reflexivity).
    unfold int64_range. lia.
  - intros t. exists [ShardedTensorM.SetIsSharded true]. reflexivity.
Defined.

(** ** The exit callback at its edges *)

Lemma broadcast_and_release_unwrapped (src_rank : Z) (param : nat) (s : State) :
  ~ wrapped s param ->
  broadcast_and_release src_rank param s = (s, Raise (AssertionError "")).
Proof.
  unfold wrapped, hasattr_colo_attr. intros Hfresh.
  cbv [broadcast_and_release bind gets raise].
  destruct (colo_attr (params s !!! param)); [exfalso; now apply Hfresh|reflexivity].
Qed.

(** X12: a listed parameter without [colo_attr] stops the exit callback
    with the assertion error: the calls for the parameters before it have
    been made, none for it or for those after it, [param_list] is still
    there, and the fan routine and the generator states are not restored. *)
Theorem _post_context_exec_stops_at_unwrapped_parameter :
  forall (rt : Runtime) (s : State) (before_ after_ : list nat) (p : nat)
         (src_rank : Z) (others : list Z),
    param_list (self s) = Some (before_ ++ p :: after_) ->
    get_ranks_in_group rt = src_rank :: others ->
    (forall x, x ∈ before_ ->
       wrapped s x /\ is_Some (param_is_replicated (params s !!! x))) ->
    ~ wrapped s p ->
    _post_context_exec rt s
    = (with_trace (trace s ++ flat_map (exit_events s src_rank) before_) s,
       Raise (AssertionError "")).
Proof.
  intros rt s pre post p src others Hl Hranks Hpre Hfresh.
  cbv [_post_context_exec bind lift_result getattr_self gets ret raise].
  rewrite Hranks. cbn [py_index lookup list_lookup]. rewrite Hl.
  rewrite for_each_app, (for_each_broadcast_and_release src pre s Hpre), for_each_cons.
  rewrite broadcast_and_release_unwrapped; [reflexivity|].
  unfold wrapped in *. exact Hfresh.
Qed.

Lemma _post_context_exec_stops_at_unwrapped_parameter_witness :
  let s := with_self (with_param_list (Some [0%nat]) sample_context)
             (sample_state linear_hierarchy) in
  snd (_post_context_exec sample_runtime s) = Raise (AssertionError "")
  /\ globals (fst (_post_context_exec sample_runtime s)) = globals s.
Proof.
  intros s.
  rewrite (_post_context_exec_stops_at_unwrapped_parameter sample_runtime s [] [] 0%nat 0 [1]).
  - split; reflexivity.
  - reflexivity.
  - reflexivity.
  - intros x Hx. inversion Hx.
  - vm_compute. discriminate.
Defined.

(** X13: a completed exit callback has deleted [param_list] and kept the
    counter and the configuration; calling it again raises [AttributeError]
    and changes nothing - no second broadcast, no second restore. *)
Theorem _post_context_exec_runs_once :
  forall (rt : Runtime) (s s' : State),
    _post_context_exec rt s = (s', Ok tt) ->
    param_list (self s') = None
    /\ model_numel_tensor (self s') = model_numel_tensor (self s)
    /\ config (self s') = config (self s)
    /\ _post_context_exec rt s' = (s', Raise (AttributeError "param_list")).
Proof.
  intros rt s s'.
  cbv [_post_context_exec bind lift_result getattr_self gets ret raise modify].
  destruct (py_index (get_ranks_in_group rt) 0) as [src|e]; [|discriminate].
  destruct (param_list (self s)) as [l|]; [|discriminate].
  destruct (for_each l (broadcast_and_release src) s) as [s1 [[]|e]] eqn:Hloop;
    [|discriminate].
  apply for_each_broadcast_and_release_frame in Hloop.
  destruct Hloop as (_ & _ & _ & Hself & _ & _ & _).
  rewrite <- Hself. clear Hself.
  destruct s1 as [cs hook old_hook [strategy pl counter sd group cfg [fan|] [cpu|] [cuda|]]
                    ps bufs g tr]; cbn; intros H; inversion H; subst; cbn.
  split_and!; reflexivity.
Qed.

Lemma _post_context_exec_runs_once_witness :
  let s' := fst (_post_context_exec sample_runtime
                   (fst (_pre_context_exec sample_runtime (sample_state linear_hierarchy)))) in
  _post_context_exec sample_runtime s' = (s', Raise (AttributeError "param_list")).
Proof.
  intros s'.
  apply (_post_context_exec_runs_once sample_runtime
           (fst (_pre_context_exec sample_runtime (sample_state linear_hierarchy))) s').
  vm_compute. reflexivity.
Defined.

(** X14: the context is not re-entrant: entered a second time before it is
    left, it overwrites its snapshots with the state the first entry
    installed, so the exit callback then "restores" the substituted routine
    and the seeded generator states, not the ones from before the first
    entry. *)
Theorem _pre_context_exec_twice_loses_snapshots :
  forall (rt : Runtime) (s s1 s2 s3 s4 : State),
    _pre_context_exec rt s = (s1, Ok tt) ->
    _pre_context_exec rt s1 = (s2, Ok tt) ->
    nn_fanin_fanout (self s3) = nn_fanin_fanout (self s2) ->
    cpu_rng_state (self s3) = cpu_rng_state (self s2) ->
    cuda_rng_state (self s3) = cuda_rng_state (self s2) ->
    _post_context_exec rt s3 = (s4, Ok tt) ->
    _calculate_fan_in_and_fan_out (globals s4) = calc_fanin_fanout
    /\ cpu_rng (globals s4) = cpu_rng (globals s1)
    /\ cuda_rng (globals s4) = cuda_rng (globals s1).
Proof.
  intros rt s s1 s2 s3 s4 Hpre1 Hpre2 Hfan Hcpu Hcuda Hpost.
  apply _pre_context_exec_snapshots in Hpre1 as (_ & _ & _ & Hfan1 & _).
  apply _pre_context_exec_snapshots in Hpre2 as (Hfan2 & Hcpu2 & Hcuda2 & _).
  apply _post_context_exec_restores in Hpost as (Hfan4 & Hcpu4 & Hcuda4 & _).
  rewrite Hfan, Hfan2, Hfan1 in Hfan4. rewrite Hcpu, Hcpu2 in Hcpu4.
  rewrite Hcuda, Hcuda2 in Hcuda4.
  split_and!; congruence.
Qed.

Lemma _pre_context_exec_twice_loses_snapshots_witness :
  let s := sample_state linear_hierarchy in
  let s1 := fst (_pre_context_exec sample_runtime s) in
  let s2 := fst (_pre_context_exec sample_runtime s1) in
  let s4 := fst (_post_context_exec sample_runtime s2) in
  cpu_rng (globals s) = [Byte.x0a] /\ cpu_rng (globals s4) = [Byte.x01].
Proof.
  intros s s1 s2 s4. split; [reflexivity|].
  destruct (_pre_context_exec_twice_loses_snapshots sample_runtime s s1 s2 s2 s4)
    as (_ & Hcpu & _).
  - vm_compute. reflexivity.
  - vm_compute. reflexivity.
  - reflexivity.
  - reflexivity.
  - reflexivity.
  - vm_compute. reflexivity.
  - rewrite Hcpu. vm_compute. reflexivity.
Defined.

(** X15: the entry callback seeds the generators with
    [seed + (seed + 1) * rank]: two processes entering with the same context
    get the states [torch.manual_seed] installs for those two seeds, and the
    seeds coincide only for equal ranks - or for [seed = -1], where every
    rank is seeded alike. *)
Theorem _pre_context_exec_seeds_by_rank :
  forall (rt1 rt2 : Runtime) (s s1 s2 : State),
    _pre_context_exec rt1 s = (s1, Ok tt) ->
    _pre_context_exec rt2 s = (s2, Ok tt) ->
    let base := seed (self s) in
    let seed1 := base + (base + 1) * get_rank rt1 in
    let seed2 := base + (base + 1) * get_rank rt2 in
    manual_seed rt1 seed1 = Ok (cpu_rng (globals s1), cuda_rng (globals s1))
    /\ manual_seed rt2 seed2 = Ok (cpu_rng (globals s2), cuda_rng (globals s2))
    /\ (seed1 = seed2 <-> base = -1 \/ get_rank rt1 = get_rank rt2).
Proof.
  intros rt1 rt2 s s1 s2 Hpre1 Hpre2 base seed1 seed2.
  apply _pre_context_exec_snapshots in Hpre1 as (_ & _ & _ & _ & Hseed1 & _).
  apply _pre_context_exec_snapshots in Hpre2 as (_ & _ & _ & _ & Hseed2 & _).
  split_and!; [exact Hseed1|exact Hseed2|].
  subst seed1 seed2. split.
  - intros Heq. destruct (Z.eq_dec base (-1)) as [?|Hne]; [now left|right]. nia.
  - intros [->| ->]; lia.
Qed.

Lemma _pre_context_exec_seeds_by_rank_witness :
  let rt := {| get_rank := 3; get_ranks_in_group := [0; 1; 2; 3]; cuda_current_device := 0;
               manual_seed := fun z => if z =? 4095 then Ok ([Byte.x03], [Byte.x04])
                                       else Raise (RuntimeError "seed");
               getrecursionlimit := 1000 |} in
  cpu_rng (globals (fst (_pre_context_exec rt (sample_state linear_hierarchy))))
  = [Byte.x03].
Proof.
  intros rt.
  destruct (_pre_context_exec_seeds_by_rank rt rt (sample_state linear_hierarchy)
              (fst (_pre_context_exec rt (sample_state linear_hierarchy)))
              (fst (_pre_context_exec rt (sample_state linear_hierarchy))))
    as (Hseed & _).
  - vm_compute. reflexivity.
  - vm_compute. reflexivity.
  - vm_compute. reflexivity.
Defined.

(** ** The interceptor *)

Lemma class_frame_refl (s : State) : class_frame s s.
Proof. unfold class_frame. split_and!; reflexivity. Qed.

Lemma class_frame_trans (s1 s2 s3 : State) :
  class_frame s1 s2 -> class_frame s2 s3 -> class_frame s1 s3.
Proof.
  unfold class_frame. intros H12 H23.
  repeat match goal with H : _ /\ _ |- _ => destruct H end.
  split_and!; congruence.
Qed.

Lemma bind_preserves {S A B} (R : S -> S -> Prop) (m : M S A) (k : A -> M S B) :
  (forall s1 s2 s3, R s1 s2 -> R s2 s3 -> R s1 s3) ->
  (forall s s' r, m s = (s', r) -> R s s') ->
  (forall a s s' r, k a s = (s', r) -> R s s') ->
  forall s s' r, bind m k s = (s', r) -> R s s'.
Proof.
  intros Htrans Hm Hk s s' r. unfold bind.
  destruct (m s) as [s1 [a|e]] eqn:Hms; intros H.
  - eapply Htrans; [eapply Hm; exact Hms|eapply Hk; exact H].
  - inversion H; subst. eapply Hm; exact Hms.
Qed.

(** The traversal preserves every reflexive and transitive relation that
    the function it applies preserves. *)
Lemma _substitute_init_recursively_preserves (R : State -> State -> Prop)
    (func : nat -> M State unit) :
  (forall s, R s s) ->
  (forall s1 s2 s3, R s1 s2 -> R s2 s3 -> R s1 s3) ->
  (forall x s s' r, func x s = (s', r) -> R s s') ->
  forall depth cls s s' r,
    _substitute_init_recursively depth cls func s = (s', r) -> R s s'.
Proof.
  intros Hrefl Htrans Hfunc depth.
  induction depth as [|depth IH]; intros cls s s' r Hrun.
  - cbn in Hrun. inversion Hrun; subst. apply Hrefl.
  - cbn [_substitute_init_recursively] in Hrun. unfold bind at 1, gets in Hrun.
    revert Hrun. apply (for_each_preserves R); auto.
    intros x a b r0. apply (bind_preserves R); auto.
    + intros a0 b0 r1. apply IH.
    + intros _ a0 b0 r1. apply Hfunc.
Qed.

Lemma setattr_init_frame (cls : nat) (f : init_fn) (s s' : State) (r : result unit) :
  setattr_init cls f s = (s', r) -> class_frame s s'.
Proof.
  unfold setattr_init, modify. intros H; inversion H; subst.
  unfold class_frame; cbn; split_and!; reflexivity.
Qed.

Lemma setattr_old_init_frame (cls : nat) (f : init_fn) (s s' : State) (r : result unit) :
  setattr_old_init cls f s = (s', r) -> class_frame s s'.
Proof.
  unfold setattr_old_init, modify. intros H; inversion H; subst.
  unfold class_frame; cbn; split_and!; reflexivity.
Qed.

Lemma _enable_class_frame (cls : nat) (s s' : State) (r : result unit) :
  _enable_class cls s = (s', r) -> class_frame s s'.
Proof.
  unfold _enable_class, bind, gets.
  destruct (setattr_old_init cls (getattr_init s cls) s) as [s1 [[]|e]] eqn:H1.
  - intros H2. eapply class_frame_trans;
      [eapply setattr_old_init_frame; exact H1|eapply setattr_init_frame; exact H2].
  - intros H; inversion H; subst. eapply setattr_old_init_frame; exact H1.
Qed.

Lemma _disable_class_frame (cls : nat) (s s' : State) (r : result unit) :
  _disable_class cls s = (s', r) -> class_frame s s'.
Proof.
  unfold _disable_class, bind, lift_result.
  destruct (getattr_old_init s cls) as [f|e].
  - apply setattr_init_frame.
  - intros H; inversion H; subst. apply class_frame_refl.
Qed.



Lemma _pre_context_exec_rejected_seed (rt : Runtime) (s : State) (e : exn) :
  manual_seed rt (seed (self s) + (seed (self s) + 1) * get_rank rt) = Raise e ->
  exists s1,
    _pre_context_exec rt s = (s1, Raise e)
    /\ classes s1 = classes s
    /\ Module_init_subclass s1 = Module_init_subclass s
    /\ _calculate_fan_in_and_fan_out (globals s1) = calc_fanin_fanout
    /\ cpu_rng (globals s1) = cpu_rng (globals s)
    /\ cuda_rng (globals s1) = cuda_rng (globals s).
Proof.
  intros Hseed. cbv [_pre_context_exec bind modify gets lift_result].
  cbn [self with_self seed with_snapshots with_globals]. rewrite Hseed.
  eexists. split; [reflexivity|]. cbn. split_and!; reflexivity.
Qed.

(** X17: when [torch.manual_seed] rejects the rank's seed, entering fails
    after the interceptor has been installed: the [with] statement raises
    that error without running its body or [__exit__], every constructor the
    traversal wrapped stays wrapped, [__init_subclass__] stays patched and
    the fan routine stays substituted. *)
Theorem rejected_seed_leaves_interceptor_installed :
  forall (rt : Runtime) (s s0 : State) (body : M State unit) (e : exn),
    _substitute_init_recursively (getrecursionlimit rt) nn_Module_class _enable_class s
    = (s0, Ok tt) ->
    manual_seed rt (seed (self s) + (seed (self s) + 1) * get_rank rt) = Raise e ->
    exists s1,
      zero_init_scope rt body s = (s1, Raise e)
      /\ classes s1 = classes s0
      /\ Module_init_subclass s1 = patched_init_subclass
      /\ _calculate_fan_in_and_fan_out (globals s1) = calc_fanin_fanout
      /\ cpu_rng (globals s1) = cpu_rng (globals s).
Proof.
  intros rt s s0 body e Htrav Hseed.
  assert (Hframe : class_frame s s0).
  { eapply (_substitute_init_recursively_preserves class_frame);
      eauto using class_frame_refl, class_frame_trans, _enable_class_frame. }
  destruct Hframe as (_ & _ & Hself & _ & _ & Hg & _).
  set (s0' := with_init_subclass patched_init_subclass
                (with_old_init_subclass (Some (Module_init_subclass s0)) s0)).
  destruct (_pre_context_exec_rejected_seed rt s0' e)
    as (s1 & Hpre & Hcls & Hhook & Hfan & Hcpu & _).
  { subst s0'. cbn [self with_init_subclass with_old_init_subclass]. now rewrite Hself. }
  exists s1. unfold zero_init_scope, py_with, __enter__.
  unfold bind at 1. rewrite Htrav. cbv [bind modify]. fold s0'. rewrite Hpre.
  split_and!; auto.
  rewrite Hcpu. subst s0'. cbn. now rewrite Hg.
Qed.

Lemma rejected_seed_leaves_interceptor_installed_witness :
  let rt := {| get_rank := 1; get_ranks_in_group := [0; 1]; cuda_current_device := 0;
               manual_seed := fun _ => Raise (RuntimeError "Overflow when unpacking long");
               getrecursionlimit := 1000 |} in
  let out := zero_init_scope rt (raise (UserError 0)) (sample_state linear_hierarchy) in
  snd out = Raise (RuntimeError "Overflow when unpacking long")
  /\ getattr_init (fst out) 1 = wrapper (defined_init 1).
Proof.
  intros rt out.
  destruct (rejected_seed_leaves_interceptor_installed rt (sample_state linear_hierarchy)
              (fst (_substitute_init_recursively 1000 nn_Module_class _enable_class
                      (sample_state linear_hierarchy)))
              (raise (UserError 0)) (RuntimeError "Overflow when unpacking long"))
    as (s1 & Hrun & _).
  - vm_compute. reflexivity.
  - reflexivity.
  - subst out. rewrite Hrun. split; [reflexivity|].
    inversion Hrun as [Hs1]. vm_compute. reflexivity.
Defined.

Lemma __exit___never_swallows (rt : Runtime) (exc : option exn) (s s' : State) (b : bool) :
  __exit__ rt exc s = (s', Ok b) -> b = false.
Proof.
  unfold __exit__, bind at 1.
  destruct (_substitute_init_recursively _ _ _ s) as [s1 [[]|e]]; [|discriminate].
  unfold bind at 1, gets.
  destruct (Module_old_init_subclass s1) as [f|].
  - unfold bind at 1, modify. unfold bind at 1.
    destruct (_post_context_exec rt _) as [s2 [[]|e]]; [|discriminate].
    unfold ret. intros H; inversion H; reflexivity.
  - unfold bind at 1, raise. discriminate.
Qed.

(** X18: the scope never swallows an exception of its body: when the body
    raises and [__exit__] completes, the [with] statement ends in the state
    [__exit__] left and raises the body's exception. *)
Theorem zero_init_scope_reraises_body_exception :
  forall (rt : Runtime) (body : M State unit) (s s1 s2 s3 : State) (e : exn) (b : bool),
    __enter__ rt s = (s1, Ok tt) ->
    body s1 = (s2, Raise e) ->
    __exit__ rt (Some e) s2 = (s3, Ok b) ->
    zero_init_scope rt body s = (s3, Raise e).
Proof.
  intros rt body s s1 s2 s3 e b Henter Hbody Hexit.
  pose proof (__exit___never_swallows _ _ _ _ _ Hexit) as ->.
  unfold zero_init_scope, py_with. rewrite Henter, Hbody, Hexit. reflexivity.
Qed.

Lemma zero_init_scope_reraises_body_exception_witness :
  snd (zero_init_scope sample_runtime (raise (UserError 3)) (sample_state linear_hierarchy))
  = Raise (UserError 3).
Proof.
  rewrite (zero_init_scope_reraises_body_exception sample_runtime (raise (UserError 3))
             (sample_state linear_hierarchy)
             (fst (__enter__ sample_runtime (sample_state linear_hierarchy)))
             (fst (__enter__ sample_runtime (sample_state linear_hierarchy)))
             (fst (__exit__ sample_runtime (Some (UserError 3))
                     (fst (__enter__ sample_runtime (sample_state linear_hierarchy)))))
             (UserError 3) false).
  - reflexivity.
  - vm_compute. reflexivity.
  - reflexivity.
  - vm_compute. reflexivity.
Defined.

(** ** The traversal of the class hierarchy *)

Lemma __subclasses___children (s : State) (c : nat) :
  __subclasses__ s c = children (map bases (classes s)) c.
Proof.
  unfold __subclasses__, children. rewrite length_map.
  apply filter_ext. intros x. rewrite list_lookup_fmap.
  destruct (classes s !! x); reflexivity.
Qed.

Lemma same_hierarchy_refl (s : State) : same_hierarchy s s.
Proof. split; reflexivity. Qed.

Lemma same_hierarchy_trans (s1 s2 s3 : State) :
  same_hierarchy s1 s2 -> same_hierarchy s2 s3 -> same_hierarchy s1 s3.
Proof. intros [? ?] [? ?]. split; congruence. Qed.

Lemma collect_cons_Some (b : option (list nat)) (blocks : list (option (list nat)))
    (L : list nat) :
  collect (b :: blocks) = Some L ->
  exists l r, b = Some l /\ collect blocks = Some r /\ L = l ++ r.
Proof.
  cbn. destruct b as [l|]; [|discriminate].
  destruct (collect blocks) as [r|]; [|discriminate].
  intros H; inversion H. eauto.
Qed.

Lemma alter_same_hierarchy (f : PyClass -> PyClass) (cls : nat) (s : State) :
  (forall k, bases (f k) = bases k /\ mro (f k) = mro k) ->
  same_hierarchy s (with_classes (alter f cls (classes s)) s).
Proof.
  intros Hf. unfold same_hierarchy. cbn [classes with_classes].
  split; apply list_eq; intros i; rewrite !list_lookup_fmap;
    (destruct (decide (cls = i)) as [->|Hne];
     [rewrite list_lookup_alter_eq; destruct (classes s !! i) as [k|]; cbn;
      [f_equal; apply Hf|reflexivity]
     |now rewrite list_lookup_alter_ne]).
Qed.

Lemma setattr_init_same_hierarchy (cls : nat) (f : init_fn) (s s' : State)
    (r : result unit) :
  setattr_init cls f s = (s', r) -> same_hierarchy s s'.
Proof.
  unfold setattr_init, modify. intros H; inversion H; subst.
  apply alter_same_hierarchy. intros k. split; reflexivity.
Qed.

Lemma setattr_old_init_same_hierarchy (cls : nat) (f : init_fn) (s s' : State)
    (r : result unit) :
  setattr_old_init cls f s = (s', r) -> same_hierarchy s s'.
Proof.
  unfold setattr_old_init, modify. intros H; inversion H; subst.
  apply alter_same_hierarchy. intros k. split; reflexivity.
Qed.

Lemma _enable_class_same_hierarchy (cls : nat) (s s' : State) (r : result unit) :
  _enable_class cls s = (s', r) -> same_hierarchy s s'.
Proof.
  unfold _enable_class, bind, gets.
  destruct (setattr_old_init cls (getattr_init s cls) s) as [s1 [[]|e]] eqn:H1.
  - intros H2. eapply same_hierarchy_trans;
      [eapply setattr_old_init_same_hierarchy; exact H1
      |eapply setattr_init_same_hierarchy; exact H2].
  - intros H; inversion H; subst. eapply setattr_old_init_same_hierarchy; exact H1.
Qed.

Lemma _disable_class_same_hierarchy (cls : nat) (s s' : State) (r : result unit) :
  _disable_class cls s = (s', r) -> same_hierarchy s s'.
Proof.
  unfold _disable_class, bind, lift_result.
  destruct (getattr_old_init s cls) as [f|e].
  - apply setattr_init_same_hierarchy.
  - intros H; inversion H; subst. apply same_hierarchy_refl.
Qed.

(** The traversal is the loop over [visit_order]. *)
Lemma substitute_init_visits :
  forall (func : nat -> M State unit),
    (forall x s s' r, func x s = (s', r) -> same_hierarchy s s') ->
    forall (depth cls : nat) (s : State) (order : list nat),
      visit_order depth (map bases (classes s)) cls = Some order ->
      _substitute_init_recursively depth cls func s = for_each order func s.
Proof.
  intros func Hfunc depth.
  induction depth as [|depth IH]; intros cls s order Hvisit; [discriminate|].
  cbn [_substitute_init_recursively visit_order] in *.
  unfold bind at 1, gets. rewrite __subclasses___children.
  remember (map bases (classes s)) as bl eqn:Hbl.
  revert s order Hbl Hvisit.
  generalize (children bl cls) as subs.
  induction subs as [|x subs IHsubs]; intros s order Hbl Hvisit.
  - cbn in Hvisit. inversion Hvisit. reflexivity.
  - cbn [map] in Hvisit. apply collect_cons_Some in Hvisit as (l & r & Hx & Hrest & ->).
    destruct (visit_order depth bl x) as [lx|] eqn:Hlx; [|discriminate].
    inversion Hx; subst l. clear Hx.
    rewrite for_each_cons, !for_each_app. unfold bind at 1.
    rewrite (IH x s lx) by (rewrite <- Hbl; exact Hlx).
    destruct (for_each lx func s) as [s1 [[]|e]] eqn:Hrun1; [|reflexivity].
    rewrite for_each_cons.
    destruct (func x s1) as [s2 [[]|e]] eqn:Hrun2; [|reflexivity].
    cbn [for_each]. unfold ret. apply IHsubs; [|exact Hrest].
    assert (H1 : same_hierarchy s s1).
    { eapply (for_each_preserves same_hierarchy);
        eauto using same_hierarchy_refl, same_hierarchy_trans. }
    destruct (same_hierarchy_trans _ _ _ H1 (Hfunc _ _ _ _ Hrun2)) as [Hb _].
    congruence.
Qed.

(** X19: for a function that leaves the table of bases alone, the traversal
    is the loop over the post-order listing of the classes below its root
    ([visit_order]): the function is applied to a class after everything
    below the class, never to the root, and the first exception ends
    it. *)
Theorem _substitute_init_recursively_is_post_order :
  forall (func : nat -> M State unit),
    (forall x s s' r, func x s = (s', r) -> same_hierarchy s s') ->
    forall (depth cls : nat) (s : State) (order : list nat),
      visit_order depth (map bases (classes s)) cls = Some order ->
      _substitute_init_recursively depth cls func s = for_each order func s.
Proof. exact substitute_init_visits. Qed.

Lemma _substitute_init_recursively_is_post_order_witness :
  _substitute_init_recursively 1000 nn_Module_class _enable_class
    (sample_state diamond_hierarchy)
  = for_each [4; 2; 4; 3; 1]%nat _enable_class (sample_state diamond_hierarchy).
Proof.
  apply _substitute_init_recursively_is_post_order.
  - apply _enable_class_same_hierarchy.
  - vm_compute. reflexivity.
Defined.

Lemma elem_of_children (bl : list (list nat)) (x c : nat) :
  x ∈ children bl c <-> is_base bl x c.
Proof.
  unfold children, is_base. rewrite list_elem_of_In, filter_In, in_seq. split.
  - intros [_ H]. destruct (bl !! x) as [b|]; [|discriminate].
    exists b. split; [reflexivity|].
    apply existsb_exists in H as (y & Hy & Heq). apply Nat.eqb_eq in Heq. subst y.
    now apply list_elem_of_In.
  - intros (b & Hb & Hc). split.
    + apply lookup_lt_Some in Hb. lia.
    + rewrite Hb. apply existsb_exists. exists c. split; [now apply list_elem_of_In|].
      now apply Nat.eqb_eq.
Qed.

Lemma is_base_lt_length (bl : list (list nat)) (x c : nat) :
  is_base bl x c -> (x < length bl)%nat.
Proof. intros (b & Hb & _). now apply lookup_lt_Some in Hb. Qed.

Lemma declared_in_order_bases_first (cs : list PyClass) :
  declared_in_order cs = true -> bases_first (map bases cs).
Proof.
  unfold declared_in_order, bases_first, is_base. intros H x c (b & Hb & Hc).
  rewrite list_lookup_fmap in Hb.
  destruct (cs !! x) as [k|] eqn:Hk; [|discriminate]. inversion Hb; subst b.
  rewrite forallb_forall in H. specialize (H x).
  rewrite Hk in H. assert (Hx : In x (seq 0 (length cs))).
  { apply in_seq. apply lookup_lt_Some in Hk. lia. }
  specialize (H Hx). rewrite forallb_forall in H.
  apply Nat.ltb_lt, H. now apply list_elem_of_In.
Qed.

Lemma descends_lt (bl : list (list nat)) (x c : nat) :
  bases_first bl -> descends bl x c -> (c < x)%nat.
Proof.
  intros Hord H. induction H as [x c Hb|x y c _ IH Hb].
  - now apply Hord.
  - apply Hord in Hb. lia.
Qed.

Lemma descends_below (bl : list (list nat)) (x c : nat) :
  descends bl x c <-> exists y, is_base bl y c /\ (x = y \/ descends bl x y).
Proof.
  split.
  - intros H. inversion H as [x' c' Hb|x' y c' Hd Hb]; subst; eauto.
  - intros (y & Hb & [->|Hd]); [now apply descends_base|].
    eapply descends_step; eauto.
Qed.

(** The post-order listing exists when the limit exceeds the number of
    classes, and lists exactly the classes below the root. *)
Lemma visit_order_total (bl : list (list nat)) :
  bases_first bl ->
  forall depth c,
    (length bl - c < depth)%nat ->
    exists order,
      visit_order depth bl c = Some order
      /\ forall x, x ∈ order <-> descends bl x c.
Proof.
  intros Hord depth. induction depth as [|depth IH]; intros c Hdepth; [lia|].
  cbn [visit_order].
  assert (Hsubs : forall subs,
            (forall y, y ∈ subs -> is_base bl y c) ->
            exists order,
              collect (map (fun x => match visit_order depth bl x with
                                     | Some l => Some (l ++ [x])
                                     | None => None
                                     end) subs) = Some order
              /\ forall x, x ∈ order <-> exists y, y ∈ subs /\ (x = y \/ descends bl x y)).
  { induction subs as [|y subs IHsubs]; intros Hall.
    - exists []. split; [reflexivity|]. intros x. split.
      + intros H. inversion H.
      + intros (y & Hy & _). inversion Hy.
    - assert (Hy : is_base bl y c) by (apply Hall; constructor).
      destruct (IH y) as (ly & Hly & Hin_y).
      { pose proof (Hord _ _ Hy). pose proof (is_base_lt_length _ _ _ Hy). lia. }
      destruct IHsubs as (r & Hr & Hin_r).
      { intros z Hz. apply Hall. now constructor. }
      exists ((ly ++ [y]) ++ r). cbn [map collect]. rewrite Hly, Hr.
      split; [reflexivity|]. intros x.
      rewrite !elem_of_app, Hin_y, Hin_r, list_elem_of_singleton. split.
      + intros [[Hd| ->]|(z & Hz & Hx)].
        * exists y. split; [constructor|now right].
        * exists y. split; [constructor|now left].
        * exists z. split; [now constructor|exact Hx].
      + intros (z & Hz & Hx). apply elem_of_cons in Hz as [->|Hz].
        * destruct Hx as [->|Hd]; [left; now right|left; now left].
        * right. eauto. }
  destruct (Hsubs (children bl c)) as (order & Horder & Hin).
  { intros y Hy. now apply elem_of_children. }
  exists order. split; [exact Horder|].
  intros x. rewrite Hin, descends_below. split.
  - intros (y & Hy & Hx). exists y. split; [now apply elem_of_children|exact Hx].
  - intros (y & Hy & Hx). exists y. split; [now apply elem_of_children|exact Hx].
Qed.

(** X20: when every class has been declared after its bases and the
    recursion limit exceeds the number of classes, the traversal does not
    run out of depth, and the classes it applies its function to are exactly
    the direct and indirect subclasses of the root - never the root itself. *)
Theorem _substitute_init_recursively_reaches_every_subclass :
  forall (func : nat -> M State unit) (depth cls : nat) (s : State),
    (forall x s s' r, func x s = (s', r) -> same_hierarchy s s') ->
    declared_in_order (classes s) = true ->
    (length (classes s) - cls < depth)%nat ->
    exists order,
      _substitute_init_recursively depth cls func s = for_each order func s
      /\ (forall x, x ∈ order <-> descends (map bases (classes s)) x cls)
      /\ cls ∉ order.
Proof.
  intros func depth cls s Hfunc Horder Hdepth.
  pose proof (declared_in_order_bases_first _ Horder) as Hord.
  destruct (visit_order_total _ Hord depth cls) as (order & Hvisit & Hin).
  { now rewrite length_map. }
  exists order. split_and!; auto.
  - now apply substitute_init_visits.
  - rewrite Hin. intros Hd. apply (descends_lt _ _ _ Hord) in Hd. lia.
Qed.

Lemma _substitute_init_recursively_reaches_every_subclass_witness :
  exists order,
    _substitute_init_recursively 6 nn_Module_class _disable_class
      (sample_state diamond_hierarchy)
    = for_each order _disable_class (sample_state diamond_hierarchy)
    /\ nn_Module_class ∉ order.
Proof.
  destruct (_substitute_init_recursively_reaches_every_subclass _disable_class 6
              nn_Module_class (sample_state diamond_hierarchy))
    as (order & Hrun & _ & Hroot).
  - apply _disable_class_same_hierarchy.
  - reflexivity.
  - cbn. lia.
  - exists order. split; assumption.
Defined.

(** ** Single inheritance *)

Lemma descends_trans (bl : list (list nat)) (x y z : nat) :
  descends bl x y -> descends bl y z -> descends bl x z.
Proof.
  intros Hxy Hyz. induction Hyz as [y z Hb|y w z _ IH Hb].
  - eapply descends_step; eauto.
  - eapply descends_step; [apply IH; exact Hxy|exact Hb].
Qed.

Lemma descends_above (bl : list (list nat)) (x c : nat) :
  descends bl x c -> exists y, is_base bl x y /\ (y = c \/ descends bl y c).
Proof.
  intros H. induction H as [x c Hb|x y c _ IH Hb].
  - exists c. split; [exact Hb|now left].
  - destruct IH as (w & Hxw & [->|Hwy]).
    + exists y. split; [exact Hxw|right; now apply descends_base].
    + exists w. split; [exact Hxw|right]. eapply descends_step; eauto.
Qed.

Lemma is_base_descends (bl : list (list nat)) (x y c : nat) :
  is_base bl x y -> y = c \/ descends bl y c -> descends bl x c.
Proof.
  intros Hb [->|Hd]; [now apply descends_base|].
  eapply descends_trans; [apply descends_base; exact Hb|exact Hd].
Qed.

(** Two direct subclasses of a class have nothing in common below them. *)
Lemma subtrees_disjoint (bl : list (list nat)) (c s1 s2 : nat) :
  bases_first bl -> one_base bl ->
  is_base bl s1 c -> is_base bl s2 c ->
  forall x, x = s1 \/ descends bl x s1 -> x = s2 \/ descends bl x s2 -> s1 = s2.
Proof.
  intros Hord Hone H1 H2 x. induction (lt_wf x) as [x _ IH]. intros Hx1 Hx2.
  destruct Hx1 as [->|Hd1]; destruct Hx2 as [Heq|Hd2]; auto.
  - (* s1 descends s2: then c, the base of s1, is s2 or below it *)
    apply descends_above in Hd2 as (y & Hy & Hrest).
    rewrite (Hone _ _ _ Hy H1) in Hrest.
    pose proof (Hord _ _ H2). destruct Hrest as [->|Hd]; [lia|].
    apply (descends_lt _ _ _ Hord) in Hd. lia.
  - subst x. apply descends_above in Hd1 as (y & Hy & Hrest).
    rewrite (Hone _ _ _ Hy H2) in Hrest.
    pose proof (Hord _ _ H1). destruct Hrest as [->|Hd]; [lia|].
    apply (descends_lt _ _ _ Hord) in Hd. lia.
  - apply descends_above in Hd1 as (y1 & Hy1 & Hrest1).
    apply descends_above in Hd2 as (y2 & Hy2 & Hrest2).
    rewrite (Hone _ _ _ Hy2 Hy1) in Hrest2.
    apply (IH y1); [apply Hord; exact Hy1|exact Hrest1|exact Hrest2].
Qed.

Lemma postordered_app (bl : list (list nat)) (l1 l2 : list nat) :
  postordered bl (l1 ++ l2) <->
  postordered bl l1 /\ postordered bl l2
  /\ forall a b, a ∈ l1 -> b ∈ l2 -> a <> b /\ ~ descends bl b a.
Proof.
  induction l1 as [|x l1 IH]; cbn [app postordered].
  - split; [intros H; split_and!; auto; intros a b Ha; inversion Ha|tauto].
  - rewrite IH. split.
    + intros (Hnin & Hnd & H1 & H2 & Hcross). split_and!; auto.
      * intros Hin. apply Hnin. apply elem_of_app. now left.
      * intros y Hy. apply Hnd. apply elem_of_app. now left.
      * intros a b Ha Hb. apply elem_of_cons in Ha as [->|Ha]; [|now apply Hcross].
        split.
        -- intros ->. apply Hnin. apply elem_of_app. now right.
        -- apply Hnd. apply elem_of_app. now right.
    + intros ((Hnin & Hnd & H1) & H2 & Hcross). split_and!; auto.
      * intros Hin. apply elem_of_app in Hin as [Hin|Hin]; [contradiction|].
        destruct (Hcross x x) as [Hne _]; [constructor|exact Hin|]. now apply Hne.
      * intros y Hy. apply elem_of_app in Hy as [Hy|Hy]; [now apply Hnd|].
        destruct (Hcross x y) as [_ Hn]; [constructor|exact Hy|exact Hn].
      * intros a b Ha Hb. apply Hcross; [now constructor|exact Hb].
Qed.

Lemma NoDup_children (bl : list (list nat)) (c : nat) : NoDup (children bl c).
Proof.
  unfold children. generalize (NoDup_seq 0 (length bl)).
  generalize (seq 0 (length bl)) as l. intros l Hnd.
  induction Hnd as [|x l Hx Hnd IH]; cbn [List.filter]; [constructor|].
  destruct (match bl !! x with Some b => existsb (Nat.eqb c) b | None => false end);
    [|exact IH].
  constructor; [|exact IH].
  intros Hin. apply Hx. apply list_elem_of_In in Hin. apply filter_In in Hin as [Hin _].
  now apply list_elem_of_In.
Qed.

(** Under single inheritance the post-order listing names no class twice
    and no class after one of its subclasses. *)
Lemma visit_order_postordered (bl : list (list nat)) :
  bases_first bl -> one_base bl ->
  forall depth c order,
    visit_order depth bl c = Some order ->
    (forall x, x ∈ order -> descends bl x c) /\ postordered bl order.
Proof.
  intros Hord Hone depth. induction depth as [|depth IH]; intros c order Hvisit;
    [discriminate|].
  cbn [visit_order] in Hvisit.
  assert (Hsubs : forall subs order,
            NoDup subs ->
            (forall y, y ∈ subs -> is_base bl y c) ->
            collect (map (fun x => match visit_order depth bl x with
                                   | Some l => Some (l ++ [x])
                                   | None => None
                                   end) subs) = Some order ->
            (forall x, x ∈ order -> exists y, y ∈ subs /\ (x = y \/ descends bl x y))
            /\ postordered bl order).
  { clear order Hvisit. induction subs as [|y subs IHsubs]; intros order Hnd Hall Hcol.
    - cbn in Hcol. inversion Hcol. split; [intros x Hx; inversion Hx|exact I].
    - cbn [map] in Hcol. apply collect_cons_Some in Hcol as (l & r & Hy & Hrest & ->).
      destruct (visit_order depth bl y) as [ly|] eqn:Hly; [|discriminate].
      inversion Hy; subst l. clear Hy.
      apply NoDup_cons in Hnd as [Hynin Hnd].
      assert (Hyc : is_base bl y c) by (apply Hall; constructor).
      destruct (IH y ly Hly) as [Hin_y Hpost_y].
      destruct (IHsubs r Hnd) as [Hin_r Hpost_r]; [|exact Hrest|].
      { intros z Hz. apply Hall. now constructor. }
      assert (Hblock : forall a, a ∈ ly ++ [y] -> a = y \/ descends bl a y).
      { intros a Ha. apply elem_of_app in Ha as [Ha|Ha]; [right; now apply Hin_y|].
        apply list_elem_of_singleton in Ha. now left. }
      split.
      + intros x Hx. apply elem_of_app in Hx as [Hx|Hx].
        * exists y. split; [constructor|now apply Hblock].
        * destruct (Hin_r x Hx) as (z & Hz & Hxz). exists z. split; [now constructor|exact Hxz].
      + apply postordered_app. split_and!.
        * apply postordered_app. split_and!; [exact Hpost_y|cbn; split_and!; auto|].
          -- intros Hin. inversion Hin.
          -- intros z Hz. inversion Hz.
          -- intros a b Ha Hb. apply list_elem_of_singleton in Hb. subst b.
             pose proof (descends_lt _ _ _ Hord (Hin_y a Ha)) as Hlt. split; [lia|].
             intros Hd. apply (descends_lt _ _ _ Hord) in Hd. lia.
        * exact Hpost_r.
        * intros a b Ha Hb. destruct (Hin_r b Hb) as (z & Hz & Hbz).
          assert (Hzc : is_base bl z c) by (apply Hall; now constructor).
          assert (Hne : y <> z) by (intros ->; contradiction).
          split.
          -- intros ->. apply Hne.
             apply (subtrees_disjoint bl c y z Hord Hone Hyc Hzc b); auto.
          -- intros Hd. apply Hne.
             apply (subtrees_disjoint bl c y z Hord Hone Hyc Hzc b); auto.
             right. destruct (Hblock a Ha) as [->|Hay]; [exact Hd|].
             eapply descends_trans; eauto. }
  destruct (Hsubs (children bl c) order (NoDup_children bl c)) as [Hin Hpost]; auto.
  { intros y Hy. now apply elem_of_children. }
  split; [|exact Hpost].
  intros x Hx. destruct (Hin x Hx) as (y & Hy & Hxy).
  apply descends_below. exists y. split; [now apply elem_of_children|exact Hxy].
Qed.

Lemma single_inheritance_at (cs : list PyClass) (x : nat) (k : PyClass) :
  single_inheritance cs = true -> cs !! x = Some k -> tree_class cs x k = true.
Proof.
  unfold single_inheritance. rewrite forallb_forall. intros H Hk.
  specialize (H x). rewrite Hk in H. apply H, in_seq.
  apply lookup_lt_Some in Hk. lia.
Qed.

(** What [tree_class] says of a class, case by case. *)
Lemma tree_class_cases (cs : list PyClass) (x : nat) (k : PyClass) :
  tree_class cs x k = true ->
  (bases k = [] /\ x = nn_Module_class /\ mro k = [x])
  \/ (exists b kb, bases k = [b] /\ (b < x)%nat /\ cs !! b = Some kb
                   /\ mro k = x :: mro kb).
Proof.
  unfold tree_class. destruct (bases k) as [|b [|b' rest]]; [| |discriminate].
  - intros H. apply andb_prop in H as [H1 H2].
    apply bool_decide_eq_true in H1, H2. left. auto.
  - intros H. apply andb_prop in H as [H1 H2]. apply bool_decide_eq_true in H1.
    destruct (cs !! b) as [kb|] eqn:Hkb; [|discriminate].
    apply bool_decide_eq_true in H2.
    right. exists b, kb. auto.
Qed.

Lemma is_base_map (cs : list PyClass) (x c : nat) :
  is_base (map bases cs) x c <-> exists k, cs !! x = Some k /\ c ∈ bases k.
Proof.
  unfold is_base. split.
  - intros (b & Hb & Hc). rewrite list_lookup_fmap in Hb.
    destruct (cs !! x) as [k|]; [|discriminate]. inversion Hb; subst. eauto.
  - intros (k & Hk & Hc). exists (bases k). rewrite list_lookup_fmap, Hk. auto.
Qed.

Lemma single_inheritance_base (cs : list PyClass) (x c : nat) :
  single_inheritance cs = true ->
  is_base (map bases cs) x c ->
  exists k kc, cs !! x = Some k /\ bases k = [c] /\ (c < x)%nat
               /\ cs !! c = Some kc /\ mro k = x :: mro kc.
Proof.
  intros Htree Hb. apply is_base_map in Hb as (k & Hk & Hc).
  destruct (tree_class_cases cs x k (single_inheritance_at _ _ _ Htree Hk))
    as [(Hnil & _)|(b & kb & Hb & Hlt & Hkb & Hmro)].
  - rewrite Hnil in Hc. inversion Hc.
  - rewrite Hb in Hc. apply list_elem_of_singleton in Hc. subst c. eauto 10.
Qed.

Lemma single_inheritance_bases_first (cs : list PyClass) :
  single_inheritance cs = true -> bases_first (map bases cs).
Proof.
  intros Htree x c Hb.
  destruct (single_inheritance_base cs x c Htree Hb) as (k & kc & _ & _ & Hlt & _).
  exact Hlt.
Qed.

Lemma single_inheritance_one_base (cs : list PyClass) :
  single_inheritance cs = true -> one_base (map bases cs).
Proof.
  intros Htree x b b' Hb Hb'.
  destruct (single_inheritance_base cs x b Htree Hb) as (k & kc & Hk & Hbs & _).
  destruct (single_inheritance_base cs x b' Htree Hb') as (k' & kc' & Hk' & Hbs' & _).
  congruence.
Qed.

Lemma single_inheritance_mro_upwards (cs : list PyClass) :
  single_inheritance cs = true -> mro_upwards (map bases cs) (map mro cs).
Proof.
  intros Htree x. induction (lt_wf x) as [x _ IH]. intros m Hm.
  rewrite list_lookup_fmap in Hm. destruct (cs !! x) as [k|] eqn:Hk; [|discriminate].
  inversion Hm; subst m. clear Hm.
  destruct (tree_class_cases cs x k (single_inheritance_at _ _ _ Htree Hk))
    as [(_ & _ & Hmro)|(b & kb & Hb & Hlt & Hkb & Hmro)].
  - exists []. split; [exact Hmro|]. intros z Hz. inversion Hz.
  - destruct (IH b Hlt (mro kb)) as (tl & Htl & Hup).
    { now rewrite list_lookup_fmap, Hkb. }
    assert (Hxb : is_base (map bases cs) x b).
    { apply is_base_map. exists k. rewrite Hb. split; [exact Hk|constructor]. }
    exists (mro kb). split; [exact Hmro|].
    intros z Hz. rewrite Htl in Hz. apply elem_of_cons in Hz as [->|Hz].
    + now apply descends_base.
    + eapply is_base_descends; [exact Hxb|right; now apply Hup].
Qed.

Lemma single_inheritance_below_Module (cs : list PyClass) (x : nat) (k : PyClass) :
  single_inheritance cs = true ->
  cs !! x = Some k -> x <> nn_Module_class ->
  descends (map bases cs) x nn_Module_class.
Proof.
  intros Htree. revert k. induction (lt_wf x) as [x _ IH]. intros k Hk Hne.
  destruct (tree_class_cases cs x k (single_inheritance_at _ _ _ Htree Hk))
    as [(_ & Hroot & _)|(b & kb & Hb & Hlt & Hkb & _)]; [contradiction|].
  assert (Hxb : is_base (map bases cs) x b).
  { apply is_base_map. exists k. rewrite Hb. split; [exact Hk|constructor]. }
  destruct (decide (b = nn_Module_class)) as [->|Hbne].
  - now apply descends_base.
  - eapply is_base_descends; [exact Hxb|right]. eapply IH; eauto.
Qed.

(** ** Attribute lookup and the class table *)

Lemma first_in_mro_agree {A} (cs1 cs2 : list PyClass) (entry : PyClass -> option A)
    (order : list nat) :
  (forall w, w ∈ order -> cs1 !! w ≫= entry = cs2 !! w ≫= entry) ->
  first_in_mro cs1 entry order = first_in_mro cs2 entry order.
Proof.
  induction order as [|c order IH]; intros H; [reflexivity|].
  cbn [first_in_mro]. rewrite IH by (intros w Hw; apply H; now constructor).
  specialize (H c ltac:(constructor)).
  destruct (cs1 !! c) as [k1|], (cs2 !! c) as [k2|]; cbn in H.
  - rewrite H. reflexivity.
  - rewrite H. reflexivity.
  - rewrite <- H. reflexivity.
  - reflexivity.
Qed.

Lemma getattr_init_agree (s1 s2 : State) (x : nat) :
  class_mro s1 x = class_mro s2 x ->
  (forall w, w ∈ class_mro s2 x ->
     classes s1 !! w ≫= dict_init = classes s2 !! w ≫= dict_init) ->
  getattr_init s1 x = getattr_init s2 x.
Proof.
  intros Hmro H. unfold getattr_init. rewrite Hmro.
  now rewrite (first_in_mro_agree (classes s1) (classes s2) dict_init).
Qed.

(** A class whose own [__dict__] has [__init__] resolves to it. *)
Lemma getattr_init_own (s : State) (x : nat) (k : PyClass) (tl : list nat) (f : init_fn) :
  classes s !! x = Some k -> mro k = x :: tl -> dict_init k = Some f ->
  getattr_init s x = f.
Proof.
  intros Hk Hmro Hf. unfold getattr_init, class_mro. rewrite Hk, Hmro.
  cbn [first_in_mro]. now rewrite Hk, Hf.
Qed.

Lemma _enable_class_exact (x : nat) (s : State) :
  _enable_class x s
  = (with_classes (alter (enabled (getattr_init s x)) x (classes s)) s, Ok tt).
Proof.
  cbv [_enable_class bind gets setattr_old_init setattr_init modify].
  cbn [classes with_classes].
  set (s1 := with_classes _ s).
  assert (Hsame : getattr_init s1 x = getattr_init s x).
  { apply getattr_init_agree.
    - unfold class_mro. subst s1. cbn [classes with_classes].
      rewrite list_lookup_alter_eq. destruct (classes s !! x); reflexivity.
    - intros w _. subst s1. cbn [classes with_classes].
      destruct (decide (x = w)) as [->|Hne].
      + rewrite list_lookup_alter_eq. destruct (classes s !! w); reflexivity.
      + now rewrite list_lookup_alter_ne. }
  rewrite Hsame. subst s1. cbn [classes with_classes]. f_equal.
  unfold with_classes. cbn. f_equal.
  apply list_eq. intros i. destruct (decide (x = i)) as [->|Hne].
  - rewrite !list_lookup_alter_eq. destruct (classes s !! i); reflexivity.
  - now rewrite !list_lookup_alter_ne.
Qed.

Lemma _disable_class_exact (x : nat) (s : State) (k : PyClass) (tl : list nat) (f : init_fn) :
  classes s !! x = Some k -> mro k = x :: tl -> dict_old_init k = Some f ->
  _disable_class x s = (with_classes (alter (disabled f) x (classes s)) s, Ok tt).
Proof.
  intros Hk Hmro Hf. cbv [_disable_class bind lift_result setattr_init modify].
  unfold getattr_old_init, class_mro. rewrite Hk, Hmro. cbn [first_in_mro].
  rewrite Hk, Hf. reflexivity.
Qed.

(** [_enable_class] along a list that is in post-order. *)
Lemma for_each_enable_class (bl ml : list (list nat)) :
  mro_upwards bl ml ->
  forall (order : list nat) (s : State),
    map bases (classes s) = bl -> map mro (classes s) = ml ->
    postordered bl order ->
    exists s',
      for_each order _enable_class s = (s', Ok tt)
      /\ same_hierarchy s s' /\ class_frame s s'
      /\ forall x, classes s' !! x
                   = (fun k => if decide (x ∈ order)
                               then enabled (getattr_init s x) k else k)
                     <$> classes s !! x.
Proof.
  intros Hup order. induction order as [|a order IH]; intros s Hb Hm Hpost.
  - exists s. split_and!; auto using same_hierarchy_refl, class_frame_refl.
    intros x. destruct (classes s !! x); reflexivity.
  - cbn [postordered] in Hpost. destruct Hpost as (Hnin & Hnd & Hpost).
    rewrite for_each_cons, _enable_class_exact.
    set (s1 := with_classes (alter (enabled (getattr_init s a)) a (classes s)) s).
    assert (Hsame1 : same_hierarchy s s1).
    { apply alter_same_hierarchy. intros k. split; reflexivity. }
    assert (Hframe1 : class_frame s s1).
    { unfold class_frame. subst s1. cbn. split_and!; reflexivity. }
    destruct Hsame1 as [Hb1 Hm1].
    destruct (IH s1) as (s' & Hrun & Hsame' & Hframe' & Hlook'); [congruence|congruence|auto|].
    exists s'. split; [exact Hrun|].
    split; [eapply same_hierarchy_trans; [split; eassumption|exact Hsame']|].
    split; [eapply class_frame_trans; [exact Hframe1|exact Hframe']|].
    intros x. rewrite Hlook'. subst s1. cbn [classes with_classes].
    destruct (decide (a = x)) as [->|Hne].
    + rewrite list_lookup_alter_eq.
      destruct (decide (x ∈ order)) as [Hin|_]; [contradiction|].
      destruct (decide (x ∈ x :: order)) as [_|Hn]; [|exfalso; apply Hn; constructor].
      destruct (classes s !! x); reflexivity.
    + rewrite list_lookup_alter_ne by exact Hne.
      destruct (classes s !! x) as [k|] eqn:Hk; [|reflexivity]. cbn.
      destruct (decide (x ∈ order)) as [Hin|Hnin'].
      * destruct (decide (x ∈ a :: order)) as [_|Hn];
          [|exfalso; apply Hn; now constructor].
        f_equal. f_equal.
        destruct (Hup x (mro k)) as (tl & Htl & Habove).
        { rewrite <- Hm, list_lookup_fmap, Hk. reflexivity. }
        apply getattr_init_agree.
        -- unfold class_mro. cbn [classes with_classes].
           now rewrite list_lookup_alter_ne.
        -- intros w Hw. cbn [classes with_classes].
           rewrite list_lookup_alter_ne; [reflexivity|].
           intros <-. unfold class_mro in Hw. rewrite Hk, Htl in Hw.
           apply elem_of_cons in Hw as [Hw|Hw]; [congruence|].
           apply (Hnd x Hin). rewrite <- Hb. rewrite <- Hb in Habove. now apply Habove.
      * destruct (decide (x ∈ a :: order)) as [Hin|_]; [|reflexivity].
        apply elem_of_cons in Hin as [->|Hin]; contradiction.
Qed.

(** [_disable_class] along a list of classes that each hold [_old_init]. *)
Lemma for_each_disable_class (F : nat -> init_fn) :
  forall (order : list nat) (s : State),
    (forall x, x ∈ order ->
       exists k tl, classes s !! x = Some k /\ mro k = x :: tl
                    /\ dict_old_init k = Some (F x)) ->
    exists s',
      for_each order _disable_class s = (s', Ok tt)
      /\ same_hierarchy s s' /\ class_frame s s'
      /\ forall x, classes s' !! x
                   = (fun k => if decide (x ∈ order) then disabled (F x) k else k)
                     <$> classes s !! x.
Proof.
  induction order as [|a order IH]; intros s Hold.
  - exists s. split_and!; auto using same_hierarchy_refl, class_frame_refl.
    intros x. destruct (classes s !! x); reflexivity.
  - destruct (Hold a ltac:(constructor)) as (ka & tla & Hka & Hmro & Hf).
    rewrite for_each_cons, (_disable_class_exact a s ka tla (F a) Hka Hmro Hf).
    set (s1 := with_classes (alter (disabled (F a)) a (classes s)) s).
    assert (Hsame1 : same_hierarchy s s1).
    { apply alter_same_hierarchy. intros k. split; reflexivity. }
    assert (Hframe1 : class_frame s s1).
    { unfold class_frame. subst s1. cbn. split_and!; reflexivity. }
    destruct (IH s1) as (s' & Hrun & Hsame' & Hframe' & Hlook').
    { intros x Hx. destruct (Hold x ltac:(now constructor)) as (k & tl & Hk & Hm & Hfx).
      subst s1. cbn [classes with_classes]. destruct (decide (a = x)) as [->|Hne].
      - rewrite list_lookup_alter_eq, Hk. exists (disabled (F x) k), tl. auto.
      - rewrite list_lookup_alter_ne by exact Hne. eauto. }
    exists s'. split; [exact Hrun|].
    split; [eapply same_hierarchy_trans; [exact Hsame1|exact Hsame']|].
    split; [eapply class_frame_trans; [exact Hframe1|exact Hframe']|].
    intros x. rewrite Hlook'. subst s1. cbn [classes with_classes].
    destruct (decide (a = x)) as [->|Hne].
    + rewrite list_lookup_alter_eq.
      destruct (decide (x ∈ x :: order)) as [_|Hn]; [|exfalso; apply Hn; constructor].
      destruct (classes s !! x); [|reflexivity]. cbn.
      destruct (decide (x ∈ order)); reflexivity.
    + rewrite list_lookup_alter_ne by exact Hne.
      destruct (classes s !! x) as [k|]; [|reflexivity]. cbn.
      destruct (decide (x ∈ order)) as [Hin|Hnin];
        destruct (decide (x ∈ a :: order)) as [Hin'|Hnin']; try reflexivity.
      * exfalso. apply Hnin'. now constructor.
      * apply elem_of_cons in Hin' as [->|Hin']; contradiction.
Qed.

Lemma _pre_context_exec_class_table (rt : Runtime) (s s' : State) (r : result unit) :
  _pre_context_exec rt s = (s', r) ->
  classes s' = classes s
  /\ Module_init_subclass s' = Module_init_subclass s
  /\ Module_old_init_subclass s' = Module_old_init_subclass s.
Proof.
  cbv [_pre_context_exec bind modify gets lift_result].
  cbn [self with_self seed with_snapshots with_globals].
  destruct (manual_seed rt _) as [[cpu cuda]|e]; intros H; inversion H; subst; cbn;
    split_and!; reflexivity.
Qed.

Lemma _post_context_exec_class_table (rt : Runtime) (s s' : State) (r : result unit) :
  _post_context_exec rt s = (s', r) ->
  classes s' = classes s /\ Module_init_subclass s' = Module_init_subclass s.
Proof.
  cbv [_post_context_exec bind lift_result getattr_self gets ret raise modify].
  destruct (py_index (get_ranks_in_group rt) 0) as [src|e];
    [|intros H; inversion H; subst; split; reflexivity].
  destruct (param_list (self s)) as [l|];
    [|intros H; inversion H; subst; split; reflexivity].
  destruct (for_each l (broadcast_and_release src) s) as [s1 [[]|e]] eqn:Hloop;
    apply for_each_broadcast_and_release_frame in Hloop;
    destruct Hloop as (Hcls & Hhook & _); rewrite <- Hcls, <- Hhook.
  - destruct s1 as [cs hook old_hook [strategy pl counter sd group cfg [fan|] [cpu|] [cuda|]]
                      ps bufs g tr]; cbn; intros H; inversion H; subst; cbn;
      split; reflexivity.
  - intros H; inversion H; subst; split; reflexivity.
Qed.

(** The class table [__enter__] leaves under single inheritance. *)
Lemma __enter___class_table (rt : Runtime) (s s1 : State) :
  single_inheritance (classes s) = true ->
  (length (classes s) < getrecursionlimit rt)%nat ->
  __enter__ rt s = (s1, Ok tt) ->
  exists order,
    visit_order (getrecursionlimit rt) (map bases (classes s)) nn_Module_class = Some order
    /\ (forall x, x ∈ order <-> descends (map bases (classes s)) x nn_Module_class)
    /\ same_hierarchy s s1
    /\ Module_init_subclass s1 = patched_init_subclass
    /\ Module_old_init_subclass s1 = Some (Module_init_subclass s)
    /\ forall x, classes s1 !! x
                 = (fun k => if decide (x ∈ order)
                             then enabled (getattr_init s x) k else k)
                   <$> classes s !! x.
Proof.
  intros Htree Hlimit Henter.
  pose proof (single_inheritance_bases_first _ Htree) as Hord.
  pose proof (single_inheritance_one_base _ Htree) as Hone.
  pose proof (single_inheritance_mro_upwards _ Htree) as Hup.
  destruct (visit_order_total _ Hord (getrecursionlimit rt) nn_Module_class)
    as (order & Hvisit & Hin).
  { rewrite length_map. unfold nn_Module_class. lia. }
  destruct (visit_order_postordered _ Hord Hone _ _ _ Hvisit) as [_ Hpost].
  destruct (for_each_enable_class _ _ Hup order s eq_refl eq_refl Hpost)
    as (s0 & Hrun & Hsame0 & Hframe0 & Hlook0).
  exists order. split; [exact Hvisit|]. split; [exact Hin|].
  unfold __enter__ in Henter. unfold bind at 1 in Henter.
  rewrite (substitute_init_visits _enable_class _enable_class_same_hierarchy _ _ _ _ Hvisit),
    Hrun in Henter.
  cbv [bind modify] in Henter.
  apply _pre_context_exec_class_table in Henter as (Hcls & Hhook & Hold).
  cbn in Hcls, Hhook, Hold.
  destruct Hframe0 as (Hhook0 & _).
  split; [|split; [exact Hhook|split; [congruence|]]].
  - destruct Hsame0 as [Hb Hm]. split; congruence.
  - intros x. rewrite Hcls. apply Hlook0.
Qed.

(** X21: on a single-inheritance hierarchy, with a recursion limit above
    the number of classes, a completed [__enter__] has wrapped the
    constructor of every class other than [nn.Module] exactly once - looking
    up [__init__] on it gives [preprocess_after] of what the lookup gave
    before - has left [nn.Module]'s own constructor alone, and has patched
    [__init_subclass__], keeping the previous one for exit. *)
Theorem __enter___wraps_every_subclass_once :
  forall (rt : Runtime) (s s1 : State),
    single_inheritance (classes s) = true ->
    (length (classes s) < getrecursionlimit rt)%nat ->
    __enter__ rt s = (s1, Ok tt) ->
    (forall x k, classes s !! x = Some k -> x <> nn_Module_class ->
       getattr_init s1 x = preprocess_after (getattr_init s x))
    /\ getattr_init s1 nn_Module_class = getattr_init s nn_Module_class
    /\ Module_init_subclass s1 = patched_init_subclass
    /\ Module_old_init_subclass s1 = Some (Module_init_subclass s).
Proof.
  intros rt s s1 Htree Hlimit Henter.
  pose proof (single_inheritance_bases_first _ Htree) as Hord.
  pose proof (single_inheritance_mro_upwards _ Htree) as Hup.
  destruct (__enter___class_table rt s s1 Htree Hlimit Henter)
    as (order & _ & Hin & _ & Hhook & Hold & Hlook).
  split; [|split; [|split; assumption]].
  - intros x k Hk Hne.
    destruct (Hup x (mro k)) as (tl & Htl & _).
    { now rewrite list_lookup_fmap, Hk. }
    apply (getattr_init_own s1 x (enabled (getattr_init s x) k) tl); [|exact Htl|reflexivity].
    rewrite Hlook, Hk. cbn.
    destruct (decide (x ∈ order)) as [_|Hn]; [reflexivity|].
    exfalso. apply Hn, Hin. eapply single_inheritance_below_Module; eauto.
  - assert (Hroot : nn_Module_class ∉ order).
    { rewrite Hin. intros Hd. apply (descends_lt _ _ _ Hord) in Hd. lia. }
    assert (Hsame : classes s1 !! nn_Module_class = classes s !! nn_Module_class).
    { rewrite Hlook. destruct (decide (nn_Module_class ∈ order)); [contradiction|].
      destruct (classes s !! nn_Module_class); reflexivity. }
    apply getattr_init_agree.
    + unfold class_mro. now rewrite Hsame.
    + intros w Hw. unfold class_mro in Hw.
      destruct (classes s !! nn_Module_class) as [k|] eqn:Hk; [|inversion Hw].
      destruct (Hup nn_Module_class (mro k)) as (tl & Htl & Habove).
      { now rewrite list_lookup_fmap, Hk. }
      rewrite Htl in Hw. apply elem_of_cons in Hw as [->|Hw].
      * now rewrite Hsame, Hk.
      * apply Habove, (descends_lt _ _ _ Hord) in Hw. unfold nn_Module_class in Hw. lia.
Qed.

Lemma __enter___wraps_every_subclass_once_witness :
  getattr_init (fst (__enter__ sample_runtime (sample_state linear_hierarchy))) 1
  = wrapper (defined_init 1).
Proof.
  destruct (__enter___wraps_every_subclass_once sample_runtime
              (sample_state linear_hierarchy)
              (fst (__enter__ sample_runtime (sample_state linear_hierarchy))))
    as (Hwrap & _).
  - reflexivity.
  - cbn. lia.
  - vm_compute. reflexivity.
  - rewrite (Hwrap 1%nat (class_of [0%nat] [1; 0]%nat (Some (defined_init 1)))).
    + reflexivity.
    + reflexivity.
    + discriminate.
Defined.

(** X22: on a single-inheritance hierarchy, with a recursion limit above
    the number of classes, if nothing between [__enter__] and [__exit__]
    touches the class table or the saved [__init_subclass__] (no class is
    declared in the scope), then however the body ended, and also when the
    exit callback raises, [__exit__] leaves every class resolving [__init__]
    to what it resolved before the scope, and [__init_subclass__] as it
    was. *)
Theorem __exit___restores_single_inheritance :
  forall (rt : Runtime) (s s1 s2 s3 : State) (exc : option exn) (r : result bool),
    single_inheritance (classes s) = true ->
    (length (classes s) < getrecursionlimit rt)%nat ->
    __enter__ rt s = (s1, Ok tt) ->
    classes s2 = classes s1 ->
    Module_old_init_subclass s2 = Module_old_init_subclass s1 ->
    __exit__ rt exc s2 = (s3, r) ->
    (forall x, getattr_init s3 x = getattr_init s x)
    /\ Module_init_subclass s3 = Module_init_subclass s.
Proof.
  intros rt s s1 s2 s3 exc r Htree Hlimit Henter Hcls2 Hold2 Hexit.
  pose proof (single_inheritance_bases_first _ Htree) as Hord.
  pose proof (single_inheritance_mro_upwards _ Htree) as Hup.
  destruct (__enter___class_table rt s s1 Htree Hlimit Henter)
    as (order & Hvisit & Hin & [Hb1 Hm1] & _ & Hold & Hlook).
  assert (Hheld : forall x, x ∈ order ->
            exists k tl, classes s2 !! x = Some k /\ mro k = x :: tl
                         /\ dict_old_init k = Some (getattr_init s x)).
  { intros x Hx. rewrite Hcls2, Hlook.
    destruct (decide (x ∈ order)); [|contradiction].
    apply Hin, descends_above in Hx as (y & (b & Hxb & _) & _).
    rewrite list_lookup_fmap in Hxb.
    destruct (classes s !! x) as [k|] eqn:Hk; [|discriminate].
    destruct (Hup x (mro k)) as (tl & Htl & _).
    { now rewrite list_lookup_fmap, Hk. }
    exists (enabled (getattr_init s x) k), tl. auto. }
  destruct (for_each_disable_class (getattr_init s) order s2 Hheld)
    as (s3a & Hrun & _ & Hframe & Hlook3).
  assert (Hvisit2 : visit_order (getrecursionlimit rt) (map bases (classes s2))
                      nn_Module_class = Some order) by (rewrite Hcls2, Hb1; exact Hvisit).
  unfold __exit__ in Hexit. unfold bind at 1 in Hexit.
  rewrite (substitute_init_visits _disable_class _disable_class_same_hierarchy _ _ _ _ Hvisit2),
    Hrun in Hexit.
  unfold bind at 1, gets in Hexit.
  destruct Hframe as (_ & Hold3 & _). rewrite Hold3, Hold2, Hold in Hexit.
  unfold bind at 1, modify in Hexit. unfold bind at 1 in Hexit.
  destruct (_post_context_exec rt (with_init_subclass (Module_init_subclass s) s3a))
    as [s4 r4] eqn:Hpost.
  apply _post_context_exec_class_table in Hpost as [Hcls4 Hhook4].
  cbn in Hcls4, Hhook4.
  assert (Hs3 : s3 = s4) by (destruct r4; inversion Hexit; reflexivity).
  subst s4. split; [|exact Hhook4].
  assert (Hfinal : forall x, classes s3 !! x
                             = (fun k => if decide (x ∈ order)
                                         then disabled (getattr_init s x)
                                                (enabled (getattr_init s x) k)
                                         else k) <$> classes s !! x).
  { intros x. rewrite Hcls4, Hlook3, Hcls2, Hlook.
    destruct (classes s !! x); [|reflexivity]. cbn.
    destruct (decide (x ∈ order)); reflexivity. }
  intros x. destruct (classes s !! x) as [k|] eqn:Hk.
  - destruct (Hup x (mro k)) as (tl & Htl & Habove).
    { now rewrite list_lookup_fmap, Hk. }
    destruct (decide (x ∈ order)) as [Hx|Hx].
    + apply (getattr_init_own s3 x (disabled (getattr_init s x)
                                      (enabled (getattr_init s x) k)) tl);
        [|exact Htl|reflexivity].
      rewrite Hfinal, Hk. cbn. destruct (decide (x ∈ order)); [reflexivity|contradiction].
    + assert (Hkeep : forall w, w = x \/ descends (map bases (classes s)) x w ->
                                classes s3 !! w = classes s !! w).
      { intros w Hw. rewrite Hfinal.
        destruct (decide (w ∈ order)) as [Hwin|_];
          [|destruct (classes s !! w); reflexivity].
        exfalso. apply Hx. apply Hin. apply Hin in Hwin.
        destruct Hw as [->|Hd]; [exact Hwin|]. eapply descends_trans; eauto. }
      apply getattr_init_agree.
      * unfold class_mro. rewrite (Hkeep x) by now left. reflexivity.
      * intros w Hw. unfold class_mro in Hw. rewrite Hk, Htl in Hw.
        rewrite Hkeep; [reflexivity|].
        apply elem_of_cons in Hw as [->|Hw]; [now left|right; now apply Habove].
  - assert (Hnone : classes s3 !! x = None) by (rewrite Hfinal, Hk; reflexivity).
    unfold getattr_init, class_mro. now rewrite Hnone, Hk.
Qed.

Lemma __exit___restores_single_inheritance_witness :
  let s := sample_state linear_hierarchy in
  let s1 := fst (__enter__ sample_runtime s) in
  let s2 := fst (_post_init_method sample_runtime sample_linear s1) in
  let s3 := fst (__exit__ sample_runtime (Some (UserError 0)) s2) in
  getattr_init s1 1 = wrapper (defined_init 1) /\ getattr_init s3 1 = defined_init 1.
Proof.
  intros s s1 s2 s3. split; [vm_compute; reflexivity|].
  destruct (__exit___restores_single_inheritance sample_runtime s s1 s2 s3
              (Some (UserError 0))
              (snd (__exit__ sample_runtime (Some (UserError 0)) s2)))
    as [Hinit _].
  - reflexivity.
  - cbn. lia.
  - vm_compute. reflexivity.
  - vm_compute. reflexivity.
  - vm_compute. reflexivity.
  - vm_compute. reflexivity.
  - rewrite Hinit. vm_compute. reflexivity.
Defined.
